(** * WinSparkle update checker: version order, candidate selection,
      skip policy and scheduling

    A shallow embedding of [src/updatechecker.cpp] (namespace [winsparkle]),
    and of [ApplicationController::GetAvailableHost] which it calls,
    together with the properties its specification states about it.

    Conventions.
    - A [std::string] is a [string]: a sequence of 8-bit characters.
    - A C++ [int] is a [Z]; where the source converts to [unsigned] the
      reduction modulo [2^32] is written out.
    - Functions of the C and C++ runtime whose result the language standards
      fix only in part ([std::string::compare], [atoi]) are members of the
      interface [Runtime], which records exactly what the standards promise.
    - Code that throws is modelled in an exception-and-state monad; the state
      holds the settings store and the log of calls made to the host. *)

From Stdlib Require Import ZArith String Ascii List Bool Lia Arith.
From Stdlib Require Import Sorting.Permutation Sorting.Sorted.
Import ListNotations.

Local Open Scope string_scope.
Local Open Scope Z_scope.

(* ------------------------------------------------------------------------- *)
(** * The runtime interface                                                   *)
(* ------------------------------------------------------------------------- *)

(** Sign of a three-way comparison. *)
Definition sgn_of (c : comparison) : Z :=
  match c with
  | Lt => -1
  | Eq => 0
  | Gt => 1
  end.

Definition INT_MAX : Z := 2147483647.

Definition is_digit (c : ascii) : bool :=
  (Ascii.leb "0" c && Ascii.leb c "9")%char.

Fixpoint all_digits (s : string) : bool :=
  match s with
  | EmptyString => true
  | String c s' => is_digit c && all_digits s'
  end.

(** Value of a run of decimal digits, most significant digit first. *)
Fixpoint decimal_from (acc : Z) (s : string) : Z :=
  match s with
  | EmptyString => acc
  | String c s' => decimal_from (10 * acc + (Z.of_N (N_of_ascii c) - 48)) s'
  end.

Definition decimal_value (s : string) : Z := decimal_from 0 s.

(** What the C++ and C standards say of the two library calls that
    [CompareVersions] makes.

    - [a.compare(b)] is negative, zero or positive as [a] is smaller than,
      equal to or greater than [b] in the lexicographic order of their
      characters taken as unsigned bytes ([String.compare]); its magnitude is
      left to the implementation.
    - [atoi] of a run of digits is its decimal value when that fits an [int];
      beyond, the C standard leaves the result open, and implementations
      differ (saturation, truncation). *)
Class Runtime : Type := {
  string_compare : string -> string -> Z;
  string_compare_sgn :
    forall a b, Z.sgn (string_compare a b) = sgn_of (String.compare a b);
  atoi : string -> Z;
  atoi_digits :
    forall s, all_digits s = true -> decimal_value s <= INT_MAX ->
              atoi s = decimal_value s
}.

(* ------------------------------------------------------------------------- *)
(** * Version comparison                                                      *)
(* ------------------------------------------------------------------------- *)

(** String characters classification. *)
Inductive CharType : Type :=
  | Type_Number
  | Type_Period
  | Type_String.

Definition CharType_eqb (x y : CharType) : bool :=
  match x, y with
  | Type_Number, Type_Number => true
  | Type_Period, Type_Period => true
  | Type_String, Type_String => true
  | _, _ => false
  end.

(** [c >= '0' && c <= '9'] gives the same answer whether [char] is signed or
    not: a byte above 127 is below ['0'] when signed and above ['9'] when
    unsigned. *)
Definition ClassifyChar (c : ascii) : CharType :=
  if Ascii.eqb c "." then Type_Period
  else if is_digit c then Type_Number
  else Type_String.

(** The loop of [SplitVersionString] over [version[1..len)]: [lst] is the
    vector [list] built so far, [s] the current segment, [prevType] the
    classification of the previous character. *)
Fixpoint split_loop (rest : string) (lst : list string) (s : string)
    (prevType : CharType) : list string :=
  match rest with
  | EmptyString => lst ++ [s]
  | String c rest' =>
      let newType := ClassifyChar c in
      if negb (CharType_eqb prevType newType) || CharType_eqb prevType Type_Period
      then split_loop rest' (lst ++ [s]) (String c EmptyString) newType
      else split_loop rest' lst (s ++ String c EmptyString) newType
  end.

Definition SplitVersionString (version : string) : list string :=
  match version with
  | EmptyString => []
  | String c rest => split_loop rest [] (String c EmptyString) (ClassifyChar c)
  end.

(** [s[0]]: the first character, and the terminating NUL for an empty
    string. *)
Definition char0 (s : string) : ascii :=
  match s with
  | EmptyString => zero
  | String c _ => c
  end.

Section Compare.

Context {R : Runtime}.

(** One turn of the loop of [CompareVersions] on the components [a] and [b]:
    [Some r] when the turn returns [r], [None] when it falls through to the
    next one. *)
Definition compare_part (a b : string) : option Z :=
  let typeA := ClassifyChar (char0 a) in
  let typeB := ClassifyChar (char0 b) in
  if CharType_eqb typeA typeB then
    match typeA with
    | Type_String =>
        let result := string_compare a b in
        if negb (result =? 0) then Some result else None
    | Type_Number =>
        let intA := atoi a in
        let intB := atoi b in
        if intA >? intB then Some 1
        else if intA <? intB then Some (-1)
        else None
    | Type_Period => None
    end
  else
    if negb (CharType_eqb typeA Type_String) && CharType_eqb typeB Type_String
    then Some 1
    else if CharType_eqb typeA Type_String && negb (CharType_eqb typeB Type_String)
    then Some (-1)
    else Some (if CharType_eqb typeA Type_Number then 1 else -1).

(** [for (i; i < n; i++)] with [count = n - i] turns left. *)
Fixpoint compare_loop (partsA partsB : list string) (i count : nat) : option Z :=
  match count with
  | O => None
  | S count' =>
      match compare_part (nth i partsA "") (nth i partsB "") with
      | Some r => Some r
      | None => compare_loop partsA partsB (S i) count'
      end
  end.

(** The body of [CompareVersions] once both strings are split. *)
Definition compare_split (partsA partsB : list string) : Z :=
  let n := Nat.min (length partsA) (length partsB) in
  match compare_loop partsA partsB 0 n with
  | Some r => r
  | None =>
      if (length partsA =? length partsB)%nat then 0
      else
        let '(missingPartType, shorterResult, longerResult) :=
          if (length partsB <? length partsA)%nat
          then (ClassifyChar (char0 (nth n partsA "")), -1, 1)
          else (ClassifyChar (char0 (nth n partsB "")), 1, -1) in
        if CharType_eqb missingPartType Type_String
        then shorterResult
        else longerResult
  end.

Definition CompareVersions (verA verB : string) : Z :=
  compare_split (SplitVersionString verA) (SplitVersionString verB).

(** The same comparison written by recursion on the two component lists in
    step; [compare_split_parts] below shows it equal to [compare_split]. *)
Fixpoint compare_parts (partsA partsB : list string) : Z :=
  match partsA, partsB with
  | [], [] => 0
  | a :: _, [] =>
      if CharType_eqb (ClassifyChar (char0 a)) Type_String then -1 else 1
  | [], b :: _ =>
      if CharType_eqb (ClassifyChar (char0 b)) Type_String then 1 else -1
  | a :: partsA', b :: partsB' =>
      match compare_part a b with
      | Some r => r
      | None => compare_parts partsA' partsB'
      end
  end.

End Compare.

(* ------------------------------------------------------------------------- *)
(** * The server-version probe                                                *)
(* ------------------------------------------------------------------------- *)

(** [s.find(str, pos)]: the lowest index at or after [pos] where [str] occurs
    in [s]; [None] stands for [std::string::npos]. *)
Definition find (s str : string) (pos : nat) : option nat :=
  String.index pos str s.

(** [s.substr(pos, n)], for [pos <= s.length()] as at its one use. *)
Definition substr (s : string) (pos n : nat) : string :=
  String.substring pos n s.

Definition empty (s : string) : bool :=
  match s with
  | EmptyString => true
  | String _ _ => false
  end.

Definition quote : string := String (ascii_of_nat 34) EmptyString.

Definition ParseGetVersionResponseJSON (json key : string) : string :=
  match find json key 0 with
  | None => ""
  | Some start =>
      match find json ":" start with
      | None => ""
      | Some start =>
          match find json quote start with
          | None => ""
          | Some start =>
              match find json quote (start + 1) with
              | None => ""
              | Some end_ => substr json (start + 1) (end_ - start - 1)
              end
          end
      end
  end.

Definition kDefaultServerVersion : string := "2.1.2".

(* ------------------------------------------------------------------------- *)
(** * Feed entries, settings, host events                                     *)
(* ------------------------------------------------------------------------- *)

(** The fields of [struct Appcast] that the update check reads; the others
    (title, description, installer arguments, ...) are carried along
    untouched and play no part here. *)
Record Appcast : Type := {
  Version : string;
  MinServerVersion : string;
  CriticalUpdate : bool;
  ReleaseNotesURL : string;
  DownloadURL : string
}.

(** Modelled from the spec: [Appcast::IsValid] is declared in [appcast.h],
    which is not among the sources; the data model calls an entry valid when
    its [Version] is a non-empty string. *)
Definition IsValid (a : Appcast) : bool := negb (empty (Version a)).

(** The settings store, as far as this file reads or writes it.  A value read
    through [ReadConfigValue] is [None] when the store has no such key. *)
Record Settings : Type := {
  AppcastURL : string;
  HttpHeadersString : string;
  AppBuildVersion : string;
  CheckForUpdates : option bool;
  LastCheckTime : option Z;
  SkipThisVersion : option string;
  UpdateCheckInterval : Z
}.

Definition set_LastCheckTime (t : Z) (s : Settings) : Settings :=
  {| AppcastURL := AppcastURL s;
     HttpHeadersString := HttpHeadersString s;
     AppBuildVersion := AppBuildVersion s;
     CheckForUpdates := CheckForUpdates s;
     LastCheckTime := Some t;
     SkipThisVersion := SkipThisVersion s;
     UpdateCheckInterval := UpdateCheckInterval s |}.

(** What a [catch] clause of [PerformUpdateCheck] can tell of a thrown
    object: a [DownloadException], another [std::exception], or neither. *)
Inductive Exn : Type :=
  | DownloadException (what : string)
  | StdException (what : string)
  | OtherException.

Inductive ErrorCode : Type :=
  | Err_Generic
  | Err_AppcastXmlUnavailable.

(** The calls that leave the update checker: the three notifications of
    [UI], the one write to the settings store, and on the thread itself
    [SignalReady] and the wait on the terminate event (in milliseconds). *)
Inductive Event : Type :=
  | NotifyNoUpdates (installAutomatically showDialog : bool)
  | NotifyUpdateAvailable (info : Appcast) (installAutomatically : bool)
  | NotifyUpdateError (code : ErrorCode) (what : string)
  | WriteLastCheckTime (t : Z)
  | SignalReady
  | WaitUntilSignaled (milliseconds : Z).


Definition is_write (e : Event) : bool :=
  match e with
  | WriteLastCheckTime _ => true
  | _ => false
  end.

(** The callback table of [ApplicationController] ([appcontroller.cpp]), as
    far as the check reaches it: [ms_cbGetAvailableHost] is a pointer to the
    host's callback, [NULL] ([None]) until the host registers one; a
    registered callback is taken by the string it answers. *)
Record ApplicationController : Type := {
  ms_cbGetAvailableHost : option string
}.

(** [ApplicationController::GetAvailableHost]: the answer of the callback.
    With no callback registered the function reaches its end without a
    [return] statement: no string comes back and the behaviour of the
    program is undefined from there on.  [None] stands for that. *)
Definition ApplicationController_GetAvailableHost (ac : ApplicationController)
    : option string :=
  match ms_cbGetAvailableHost ac with
  | Some answer => Some answer
  | None => None
  end.

(** The collaborators whose code is outside this file, and the network
    behind [HttpGetWinINet], each as the answer it gives during one cycle.
    A collaborator that can throw answers [inl e] (or [Some e] when it
    returns nothing).  [HttpGetWinINet url] is the body read from [url],
    empty when the connection cannot be opened; [time] is what [time(NULL)]
    returns.

    [GetAvailableHost] is the string that
    [ApplicationController::GetAvailableHost] returned: a world describes
    a cycle of a process whose host callback is registered.  Where it is
    not, the call has no value (see [ApplicationController_GetAvailableHost]
    and [host_registered]), a cycle that gets as far as the probe is
    undefined, and no world stands for it. *)
Record World : Type := {
  CheckForInsecureURL : string -> string -> option Exn;
  DownloadFile : string -> string -> Exn + string;
  Appcast_Load : string -> Exn + list Appcast;
  GetAvailableHost : string;
  HttpGetWinINet : string -> string;
  ShouldAutomaticallyInstall : bool;
  time : Z
}.

(** [GetServerVersion], from the point where [GetAvailableHost] has
    returned: the request goes to the host the application names;
    [HttpGetWinINet] answers with the body of the response, empty when the
    request fails. *)
Definition GetServerVersion (w : World) : string :=
  let host := GetAvailableHost w in
  let url := host ++ "/getVersion" in
  let json_response := HttpGetWinINet w url in
  if empty json_response then ""
  else
    let value := ParseGetVersionResponseJSON json_response "oethServerVersion" in
    if negb (empty value) then value
    else
      let value := ParseGetVersionResponseJSON json_response "error_msg" in
      if negb (empty value) then
        match find value "404" 0 with
        | Some _ => kDefaultServerVersion
        | None => ""
        end
      else "".

(* ------------------------------------------------------------------------- *)
(** * Exceptions and state                                                    *)
(* ------------------------------------------------------------------------- *)

Record State : Type := {
  settings : Settings;
  log : list Event
}.

Inductive Result (A : Type) : Type :=
  | Returned (a : A)
  | Thrown (e : Exn).

Arguments Returned {A} a.
Arguments Thrown {A} e.

Definition M (A : Type) : Type := State -> Result A * State.

Definition ret {A : Type} (a : A) : M A := fun st => (Returned a, st).

Definition bind {A B : Type} (m : M A) (k : A -> M B) : M B :=
  fun st =>
    match m st with
    | (Returned a, st') => k a st'
    | (Thrown e, st') => (Thrown e, st')
    end.

Definition throw {A : Type} (e : Exn) : M A := fun st => (Thrown e, st).

(** [try { body } catch (e) { handler e }]: what the body did to the state
    before it threw stays done. *)
Definition try_catch {A : Type} (body : M A) (handler : Exn -> M A) : M A :=
  fun st =>
    match body st with
    | (Returned a, st') => (Returned a, st')
    | (Thrown e, st') => handler e st'
    end.

Definition emit (e : Event) : M unit :=
  fun st => (Returned tt, {| settings := settings st; log := log st ++ [e] |}).

Definition read {A : Type} (field : Settings -> A) : M A :=
  fun st => (Returned (field (settings st)), st).

Definition WriteConfigValue_LastCheckTime (t : Z) : M unit :=
  fun st =>
    (Returned tt,
     {| settings := set_LastCheckTime t (settings st);
        log := log st ++ [WriteLastCheckTime t] |}).

Definition when (b : bool) (m : M unit) : M unit := if b then m else ret tt.

Definition lift_check (r : option Exn) : M unit :=
  match r with
  | Some e => throw e
  | None => ret tt
  end.

Definition lift_sum {A : Type} (r : Exn + A) : M A :=
  match r with
  | inl e => throw e
  | inr a => ret a
  end.

Declare Scope m_scope.
Delimit Scope m_scope with m.
Notation "x <- m ;; k" := (bind m (fun x => k))
  (at level 61, m at next level, right associativity) : m_scope.
Notation "m ;; k" := (bind m (fun _ => k))
  (at level 61, right associativity) : m_scope.

(* ------------------------------------------------------------------------- *)
(** * The update check                                                        *)
(* ------------------------------------------------------------------------- *)

(** [std::stable_sort] with the comparator [less].  For a strict weak
    ordering the standard fixes the result: the ascending arrangement in
    which equivalent elements keep their order.  Insertion from the right
    end, each element placed before the first one it is not greater than,
    computes it. *)
Fixpoint insert_sorted {A : Type} (less : A -> A -> bool) (x : A) (l : list A)
    : list A :=
  match l with
  | [] => [x]
  | y :: l' => if less y x then y :: insert_sorted less x l' else x :: l
  end.

Fixpoint stable_sort {A : Type} (less : A -> A -> bool) (l : list A) : list A :=
  match l with
  | [] => []
  | x :: l' => insert_sorted less x (stable_sort less l')
  end.

(** Neither element is before the other for the comparator [less]. *)
Definition equivalent {A : Type} (less : A -> A -> bool) (z y : A) : bool :=
  negb (less z y) && negb (less y z).

(** The three classes that run a check; [ShouldSkipUpdate] is virtual and
    only [ManualUpdateChecker] overrides it. *)
Inductive Checker : Type :=
  | PeriodicUpdateChecker
  | OneShotUpdateChecker
  | ManualUpdateChecker.

Section UpdateCheck.

Context {R : Runtime}.

Local Open Scope m_scope.

(** The predicate given to [std::remove_if]: the entry asks for a newer
    server than the one found. *)
Definition below_min_server (current_server_version : string) (appcast : Appcast)
    : bool :=
  CompareVersions current_server_version (MinServerVersion appcast) <? 0.

(** [all.erase(std::remove_if(...), all.end())]. *)
Definition filter_min_server (current_server_version : string)
    (all : list Appcast) : list Appcast :=
  filter (fun appcast => negb (below_min_server current_server_version appcast)) all.

Definition version_less (a b : Appcast) : bool :=
  CompareVersions (Version a) (Version b) <? 0.

(** The predicate given to [std::find_if]. *)
Definition critical_and_newer (currentVersion : string) (appcast : Appcast)
    : bool :=
  CriticalUpdate appcast && (CompareVersions currentVersion (Version appcast) <? 0).

(** [pos != all.end() ? *pos : all.back()], on the sorted vector [all];
    [first] is only there for the empty vector, which the caller rules
    out. *)
Definition pick_candidate (currentVersion : string) (all : list Appcast)
    (first : Appcast) : Appcast :=
  match List.find (critical_and_newer currentVersion) all with
  | Some appcast => appcast
  | None => last all first
  end.

Definition UpdateChecker_ShouldSkipUpdate (appcast : Appcast) : M bool :=
  if CriticalUpdate appcast then ret false
  else
    toSkip <- read SkipThisVersion ;;
    match toSkip with
    | Some toSkip => ret (String.eqb toSkip (Version appcast))
    | None => ret false
    end.

Definition ManualUpdateChecker_ShouldSkipUpdate (_ : Appcast) : M bool :=
  ret false.

(** Virtual dispatch on the dynamic type of [this]. *)
Definition ShouldSkipUpdate (this : Checker) (appcast : Appcast) : M bool :=
  match this with
  | ManualUpdateChecker => ManualUpdateChecker_ShouldSkipUpdate appcast
  | PeriodicUpdateChecker | OneShotUpdateChecker =>
      UpdateChecker_ShouldSkipUpdate appcast
  end.

Definition missing_source_message : string :=
  "The update source configuration is missing. Please contact support.".

(** The end of the [try] block, from the validation of the candidate's URLs
    on. *)
Definition report_candidate (this : Checker) (w : World) (show_dialog : bool)
    (currentVersion : string) (appcast : Appcast) : M unit :=
  when (negb (empty (ReleaseNotesURL appcast)))
       (lift_check (CheckForInsecureURL w (ReleaseNotesURL appcast) "release notes")) ;;
  when (negb (empty (DownloadURL appcast)))
       (lift_check (CheckForInsecureURL w (DownloadURL appcast) "update file")) ;;
  WriteConfigValue_LastCheckTime (time w) ;;
  if negb (IsValid appcast)
     || (CompareVersions currentVersion (Version appcast) >=? 0)
  then emit (NotifyNoUpdates (ShouldAutomaticallyInstall w) show_dialog)
  else
    skip <- ShouldSkipUpdate this appcast ;;
    if skip && negb show_dialog then ret tt
    else emit (NotifyUpdateAvailable appcast (ShouldAutomaticallyInstall w)).

(** The [try] block of [PerformUpdateCheck]. *)
Definition PerformUpdateCheck_body (this : Checker) (w : World)
    (show_dialog : bool) : M unit :=
  url <- read AppcastURL ;;
  when (empty url) (throw (StdException missing_source_message)) ;;
  lift_check (CheckForInsecureURL w url "appcast feed") ;;
  headers <- read HttpHeadersString ;;
  appcast_xml <- lift_sum (DownloadFile w url headers) ;;
  all <- lift_sum (Appcast_Load w appcast_xml) ;;
  let current_server_version := GetServerVersion w in
  let all := filter_min_server current_server_version all in
  match all with
  | [] =>
      emit (NotifyNoUpdates (ShouldAutomaticallyInstall w) show_dialog)
  | first :: _ =>
      let all := stable_sort version_less all in
      currentVersion <- read AppBuildVersion ;;
      let appcast := pick_candidate currentVersion all first in
      report_candidate this w show_dialog currentVersion appcast
  end.

(** The three [catch] clauses, in the order they are tried. *)
Definition PerformUpdateCheck_catch (show_dialog : bool) (ex : Exn) : M unit :=
  match ex with
  | DownloadException what =>
      when show_dialog (emit (NotifyUpdateError Err_AppcastXmlUnavailable what)) ;;
      throw ex
  | StdException what =>
      when show_dialog (emit (NotifyUpdateError Err_Generic what)) ;;
      throw ex
  | OtherException =>
      emit (NotifyUpdateError Err_Generic "Unknown exception") ;;
      throw ex
  end.

Definition PerformUpdateCheck (this : Checker) (w : World) (show_dialog : bool)
    : M unit :=
  try_catch (PerformUpdateCheck_body this w show_dialog)
            (PerformUpdateCheck_catch show_dialog).

(* ------------------------------------------------------------------------- *)
(** * The three ways to run a check                                           *)
(* ------------------------------------------------------------------------- *)

(** Conversion of a C++ integer to [unsigned]. *)
Definition to_unsigned (z : Z) : Z := z mod 2 ^ 32.

(** What one turn of the [while (true)] loop of
    [PeriodicUpdateChecker::Run] computes before it waits: the value of
    [sleepTimeInSeconds].  [time_t] is a 64-bit signed integer and
    [interval] an [int].  The sum [lastCheck + interval] is a signed 64-bit
    addition: exact whenever the sum fits [time_t], as it does for every
    stored time that line 385 wrote (a value of [time(NULL)]), and
    undefined in C++ when it overflows (a stored time next to the largest
    [time_t]).  The definition takes the sum exactly: it gives the defined
    behaviour of the code and says nothing of a turn whose sum
    overflows. *)
Definition Run_sleepTime (w : World) : M Z :=
  let sleepTimeInSeconds := to_unsigned (60 * 60) in
  checkUpdates <- read CheckForUpdates ;;
  let checkUpdates := match checkUpdates with Some b => b | None => false end in
  if checkUpdates then
    let currentTime := time w in
    lastCheck <- read LastCheckTime ;;
    let lastCheck := match lastCheck with Some t => t | None => 0 end in
    interval <- read UpdateCheckInterval ;;
    let nextCheck := lastCheck + interval in
    if currentTime >=? nextCheck then
      PerformUpdateCheck PeriodicUpdateChecker w false ;;
      ret (to_unsigned interval)
    else
      ret (to_unsigned (nextCheck - currentTime))
  else ret sleepTimeInSeconds.

(** One whole turn: the computation above, then
    [m_terminateEvent.WaitUntilSignaled(sleepTimeInSeconds * 1000)], the
    product being taken in [unsigned]. *)
Definition PeriodicUpdateChecker_Run_turn (w : World) : M unit :=
  sleepTimeInSeconds <- Run_sleepTime w ;;
  emit (WaitUntilSignaled (to_unsigned (sleepTimeInSeconds * 1000))).

(** [PeriodicUpdateChecker::Run]: the loop has no exit of its own; it is
    followed here for one turn per world of [worlds], the world of a turn
    being what the collaborators answer during it. *)
Fixpoint Run_turns (worlds : list World) : M unit :=
  match worlds with
  | [] => ret tt
  | w :: worlds' => PeriodicUpdateChecker_Run_turn w ;; Run_turns worlds'
  end.

Definition PeriodicUpdateChecker_Run (worlds : list World) : M unit :=
  emit SignalReady ;; Run_turns worlds.

Definition OneShotUpdateChecker_Run (w : World) : M unit :=
  emit SignalReady ;; PerformUpdateCheck OneShotUpdateChecker w false.


End UpdateCheck.

(* ========================================================================= *)
(** * Vocabulary of the properties                                            *)
(* ========================================================================= *)

Section Vocabulary.

Context {R : Runtime}.

(** Classification of a component, read off its first character as
    [CompareVersions] does. *)
Definition kind (a : string) : CharType := ClassifyChar (char0 a).

(** Sign of the verdict of one loop turn, [0] when the turn falls through. *)
Definition part_sgn (a b : string) : Z :=
  match compare_part a b with
  | Some r => Z.sgn r
  | None => 0
  end.

(** Sign of the verdict on a component that the other version lacks, seen
    from the longer version. *)
Definition extra_sgn (a : string) : Z :=
  if CharType_eqb (kind a) Type_String then -1 else 1.

(** "Not newer than", by [CompareVersions] on the [Version] fields. *)
Definition version_le (x y : Appcast) : Prop :=
  CompareVersions (Version x) (Version y) <= 0.

(** The test of [std::find_if], spelt out. *)
Definition qualifies (currentVersion : string) (x : Appcast) : Prop :=
  CriticalUpdate x = true /\ CompareVersions currentVersion (Version x) < 0.

(** The running version is not older than the candidate, or the candidate
    is not valid. *)
Definition up_to_date (currentVersion : string) (appcast : Appcast) : bool :=
  negb (IsValid appcast) || (CompareVersions currentVersion (Version appcast) >=? 0).

(** What the [try] block has in hand when it reaches the emptiness test:
    the exception thrown before, or the filtered entries. *)
Definition fetched (w : World) (s : Settings) : Exn + list Appcast :=
  if empty (AppcastURL s) then inl (StdException missing_source_message)
  else
    match CheckForInsecureURL w (AppcastURL s) "appcast feed" with
    | Some e => inl e
    | None =>
        match DownloadFile w (AppcastURL s) (HttpHeadersString s) with
        | inl e => inl e
        | inr appcast_xml =>
            match Appcast_Load w appcast_xml with
            | inl e => inl e
            | inr all => inr (filter_min_server (GetServerVersion w) all)
            end
        end
    end.

(** The candidate of a non-empty filtered list. *)
Definition candidate (s : Settings) (first : Appcast) (rest : list Appcast)
    : Appcast :=
  pick_candidate (AppBuildVersion s) (stable_sort version_less (first :: rest)) first.

End Vocabulary.

(** [sub] occurs in [s] at some position. *)
Definition contains (s sub : string) : Prop :=
  exists m : nat, String.substring m (String.length sub) s = sub.

(** What the filter keeps when the probe gave no server version. *)
Definition passes_without_server_version (appcast : Appcast) : bool :=
  match MinServerVersion appcast with
  | EmptyString => true
  | String c _ => CharType_eqb (ClassifyChar c) Type_String
  end.

Definition add_log (st : State) (evs : list Event) : State :=
  {| settings := settings st; log := log st ++ evs |}.

(** The state once [LastCheckTime] is written. *)
Definition written (w : World) (st : State) : State :=
  {| settings := set_LastCheckTime (time w) (settings st);
     log := log st ++ [WriteLastCheckTime (time w)] |}.

(** The two URL checks on the candidate: the exception of the first that
    fails. *)
Definition candidate_urls_check (w : World) (appcast : Appcast) : option Exn :=
  match
    (if negb (empty (ReleaseNotesURL appcast))
     then CheckForInsecureURL w (ReleaseNotesURL appcast) "release notes"
     else None)
  with
  | Some e => Some e
  | None =>
      if negb (empty (DownloadURL appcast))
      then CheckForInsecureURL w (DownloadURL appcast) "update file"
      else None
  end.

(** The answer of [ShouldSkipUpdate], which only reads the settings. *)
Definition should_skip (this : Checker) (s : Settings) (appcast : Appcast) : bool :=
  match this with
  | ManualUpdateChecker => false
  | PeriodicUpdateChecker | OneShotUpdateChecker =>
      if CriticalUpdate appcast then false
      else
        match SkipThisVersion s with
        | Some toSkip => String.eqb toSkip (Version appcast)
        | None => false
        end
  end.

(** The state a [catch] clause leaves behind before it rethrows. *)
Definition after_catch (show_dialog : bool) (ex : Exn) (st : State) : State :=
  match ex with
  | DownloadException what =>
      if show_dialog
      then add_log st [NotifyUpdateError Err_AppcastXmlUnavailable what]
      else st
  | StdException what =>
      if show_dialog then add_log st [NotifyUpdateError Err_Generic what] else st
  | OtherException =>
      add_log st [NotifyUpdateError Err_Generic "Unknown exception"]
  end.

(** The feed was downloaded and loaded: nothing threw before the filter. *)
Definition feed_loaded (w : World) (s : Settings) (feed : list Appcast) : Prop :=
  AppcastURL s <> "" /\
  CheckForInsecureURL w (AppcastURL s) "appcast feed" = None /\
  exists appcast_xml,
    DownloadFile w (AppcastURL s) (HttpHeadersString s) = inr appcast_xml /\
    Appcast_Load w appcast_xml = inr feed.

(** The components of a split put back together. *)
Fixpoint flatten (parts : list string) : string :=
  match parts with
  | [] => ""
  | s :: parts' => s ++ flatten parts'
  end.

(** Every character of [s] is of type [t]. *)
Fixpoint uniform (t : CharType) (s : string) : bool :=
  match s with
  | EmptyString => true
  | String c s' => CharType_eqb (ClassifyChar c) t && uniform t s'
  end.

(** Type of the last character of [s], and [t] for the empty string. *)
Fixpoint last_type (t : CharType) (s : string) : CharType :=
  match s with
  | EmptyString => t
  | String c s' => last_type (ClassifyChar c) s'
  end.

(** The test of [SplitVersionString] for a new segment, between a character
    of type [prev] and the next one of type [next]. *)
Definition breaks (prev next : CharType) : bool :=
  negb (CharType_eqb prev next) || CharType_eqb prev Type_Period.

(** Between any two neighbours of [parts] the test for a new segment
    holds. *)
Fixpoint maximal_runs (parts : list string) : Prop :=
  match parts with
  | a :: (b :: _) as parts' =>
      breaks (kind a) (kind b) = true /\ maximal_runs parts'
  | _ => True
  end.

(** What [SplitVersionString] promises of each component. *)
Definition well_formed_part (x : string) : Prop :=
  x <> "" /\
  uniform (kind x) x = true /\
  (kind x = Type_Period -> x = ".") /\
  (kind x = Type_Number -> all_digits x = true).

(** Two components that a loop turn of [CompareVersions] lets pass: of one
    type, and equal as strings, as numbers, or both periods. *)
Definition same_part {R : Runtime} (x y : string) : Prop :=
  match kind x, kind y with
  | Type_String, Type_String => x = y
  | Type_Number, Type_Number => atoi x = atoi y
  | Type_Period, Type_Period => True
  | _, _ => False
  end.

(** A number of a dotted version: a non-empty run of digits whose value
    fits an [int]. *)
Definition numeric_part (n : string) : Prop :=
  n <> "" /\ all_digits n = true /\ decimal_value n <= INT_MAX.

(** The numbers [ns] written with periods between them. *)
Fixpoint dotted (ns : list string) : string :=
  match ns with
  | [] => ""
  | n :: ns' =>
      match ns' with
      | [] => n
      | _ :: _ => n ++ "." ++ dotted ns'
      end
  end.

(** The components that [dotted ns] splits into. *)
Fixpoint dotted_parts (ns : list string) : list string :=
  match ns with
  | [] => []
  | n :: ns' =>
      match ns' with
      | [] => [n]
      | _ :: _ => n :: "." :: dotted_parts ns'
      end
  end.

(** Comparison of two lists of numbers, number by number; when one list is
    the beginning of the other, the longer one is greater. *)
Fixpoint numeric_compare (ms ns : list Z) : Z :=
  match ms, ns with
  | [], [] => 0
  | [], _ :: _ => -1
  | _ :: _, [] => 1
  | m :: ms', n :: ns' =>
      if m >? n then 1
      else if m <? n then -1
      else numeric_compare ms' ns'
  end.

(** No character of [s] is a double quote. *)
Fixpoint quote_free (s : string) : bool :=
  match s with
  | EmptyString => true
  | String c s' => negb (Ascii.eqb c (ascii_of_nat 34)) && quote_free s'
  end.

(** A response body that names the server version [V] first. *)
Definition version_body (V rest : string) : string :=
  "{" ++ quote ++ "oethServerVersion" ++ quote ++ ":" ++ quote ++ V ++ quote ++ rest.

(** The 22 characters of [version_body] before the value. *)
Definition version_body_head : string :=
  "{" ++ quote ++ "oethServerVersion" ++ quote ++ ":" ++ quote.

(** What the matching [catch] clause reports for [ex]. *)
Definition error_report (show_dialog : bool) (ex : Exn) : list Event :=
  match ex with
  | DownloadException what =>
      if show_dialog then [NotifyUpdateError Err_AppcastXmlUnavailable what] else []
  | StdException what =>
      if show_dialog then [NotifyUpdateError Err_Generic what] else []
  | OtherException => [NotifyUpdateError Err_Generic "Unknown exception"]
  end.

(** The stored time of the last check, [0] when there is none. *)
Definition lastCheck_of (s : Settings) : Z :=
  match LastCheckTime s with
  | Some t => t
  | None => 0
  end.



(** The process has registered a host callback, and [w] holds its
    answer. *)
Definition host_registered (ac : ApplicationController) (w : World) : Prop :=
  ApplicationController_GetAvailableHost ac = Some (GetAvailableHost w).

(* ------------------------------------------------------------------------- *)
(** * Runtimes and data for the examples                                      *)
(* ------------------------------------------------------------------------- *)

(** Two runtimes.

    Both meet the interface.  The first normalises [compare] to [-1], [0] or
    [1]; the second returns the difference of the first two bytes that
    differ, or of the lengths, as a [compare] built on a byte-subtracting
    [memcmp] does.  [atoi] reads the leading digits and saturates at
    [INT_MAX]. *)

Definition compare_normalised (a b : string) : Z := sgn_of (String.compare a b).

Fixpoint compare_byte_difference (a b : string) : Z :=
  match a, b with
  | EmptyString, EmptyString => 0
  | EmptyString, String _ _ => - Z.of_nat (String.length b)
  | String _ _, EmptyString => Z.of_nat (String.length a)
  | String x a', String y b' =>
      let d := Z.of_N (N_of_ascii x) - Z.of_N (N_of_ascii y) in
      if d =? 0 then compare_byte_difference a' b' else d
  end.

Fixpoint atoi_loop (acc : Z) (s : string) : Z :=
  match s with
  | EmptyString => acc
  | String c s' =>
      if is_digit c
      then atoi_loop (10 * acc + (Z.of_N (N_of_ascii c) - 48)) s'
      else acc
  end.

Definition atoi_saturating (s : string) : Z := Z.min (atoi_loop 0 s) INT_MAX.

Lemma compare_normalised_sgn (a b : string) :
  Z.sgn (compare_normalised a b) = sgn_of (String.compare a b).
Proof. unfold compare_normalised. now destruct (String.compare a b). Qed.

Lemma compare_byte_difference_sgn (a b : string) :
  Z.sgn (compare_byte_difference a b) = sgn_of (String.compare a b).
Proof.
  revert b. induction a as [|x a IH]; intros [|y b]; simpl; try reflexivity.
  unfold Ascii.compare.
  destruct (Z.eqb_spec (Z.of_N (N_of_ascii x) - Z.of_N (N_of_ascii y)) 0) as [E|E].
  - assert (Hxy : N_of_ascii x = N_of_ascii y) by lia.
    rewrite Hxy, N.compare_refl. apply IH.
  - destruct (N.compare_spec (N_of_ascii x) (N_of_ascii y)); simpl; lia.
Qed.

Lemma atoi_loop_digits (s : string) (acc : Z) :
  all_digits s = true -> atoi_loop acc s = decimal_from acc s.
Proof.
  revert acc. induction s as [|c s IH]; intros acc; simpl; [reflexivity|].
  intros H. apply andb_prop in H as [Hc Hs]. rewrite Hc. now apply IH.
Qed.

Lemma atoi_saturating_digits (s : string) :
  all_digits s = true -> decimal_value s <= INT_MAX ->
  atoi_saturating s = decimal_value s.
Proof.
  intros Hd Hv. unfold atoi_saturating. rewrite (atoi_loop_digits _ _ Hd).
  fold (decimal_value s). lia.
Qed.

Definition normalising_runtime : Runtime :=
  {| string_compare := compare_normalised;
     string_compare_sgn := compare_normalised_sgn;
     atoi := atoi_saturating;
     atoi_digits := atoi_saturating_digits |}.

Definition byte_difference_runtime : Runtime :=
  {| string_compare := compare_byte_difference;
     string_compare_sgn := compare_byte_difference_sgn;
     atoi := atoi_saturating;
     atoi_digits := atoi_saturating_digits |}.

(** The entries of the specification's selection example. *)
Definition entry_1_0 : Appcast :=
  {| Version := "1.0"; MinServerVersion := ""; CriticalUpdate := false;
     ReleaseNotesURL := ""; DownloadURL := "" |}.

Definition entry_2_0 : Appcast :=
  {| Version := "2.0"; MinServerVersion := ""; CriticalUpdate := false;
     ReleaseNotesURL := ""; DownloadURL := "" |}.

Definition entry_2_0_critical : Appcast :=
  {| Version := "2.0"; MinServerVersion := ""; CriticalUpdate := true;
     ReleaseNotesURL := ""; DownloadURL := "" |}.

Definition entry_3_0 : Appcast :=
  {| Version := "3.0"; MinServerVersion := ""; CriticalUpdate := false;
     ReleaseNotesURL := ""; DownloadURL := "" |}.

(** An entry that asks for a server of version 2.1.0 at least. *)
Definition entry_needs_server : Appcast :=
  {| Version := "2.0"; MinServerVersion := "2.1.0"; CriticalUpdate := false;
     ReleaseNotesURL := ""; DownloadURL := "" |}.

Definition example_entries : list Appcast :=
  [entry_1_0; entry_2_0_critical; entry_3_0].

(** A world that answers the [/getVersion] request with [response]; its
    other collaborators are of no consequence to the probe. *)
Definition probe_world (response : string) : World :=
  {| CheckForInsecureURL := fun _ _ => None;
     DownloadFile := fun _ _ => inr "";
     Appcast_Load := fun _ => inr [];
     GetAvailableHost := "https://host";
     HttpGetWinINet := fun _ => response;
     ShouldAutomaticallyInstall := false;
     time := 0 |}.

Definition response_404 : string :=
  "{" ++ quote ++ "error_msg" ++ quote ++ ":" ++ quote ++ "HTTP 404 Not Found"
      ++ quote ++ "}".

Definition response_version : string :=
  "{" ++ quote ++ "oethServerVersion" ++ quote ++ ": " ++ quote ++ "3.4.1"
      ++ quote ++ "}".

Definition response_500 : string :=
  "{" ++ quote ++ "error_msg" ++ quote ++ ":" ++ quote ++ "HTTP 500" ++ quote ++ "}".



(** [{"info":"oethServerVersion","error_msg":"HTTP 404"}]. *)
Definition response_key_in_info : string :=
  "{" ++ quote ++ "info" ++ quote ++ ":" ++ quote ++ "oethServerVersion" ++ quote
      ++ "," ++ quote ++ "error_msg" ++ quote ++ ":" ++ quote ++ "HTTP 404"
      ++ quote ++ "}".

Definition example_settings (currentVersion : string) (skip : option string)
    : Settings :=
  {| AppcastURL := "https://example.com/appcast.xml";
     HttpHeadersString := "";
     AppBuildVersion := currentVersion;
     CheckForUpdates := Some true;
     LastCheckTime := None;
     SkipThisVersion := skip;
     UpdateCheckInterval := 3600 |}.

(** [feed] is what loading the downloaded appcast gives, [response] the
    body of the answer to the server-version request; only [https] URLs
    pass the URL check. *)
Definition example_world (download : Exn + string) (feed : Exn + list Appcast)
    (response : string) : World :=
  {| CheckForInsecureURL :=
       fun url _ =>
         if String.prefix "https://" url then None
         else Some (StdException "insecure URL");
     DownloadFile := fun _ _ => download;
     Appcast_Load := fun _ => feed;
     GetAvailableHost := "https://host";
     HttpGetWinINet := fun _ => response;
     ShouldAutomaticallyInstall := false;
     time := 1700000000 |}.

Definition initial (s : Settings) : State := {| settings := s; log := [] |}.

Definition scheduler_settings (lastCheck : option Z) (interval : Z) : Settings :=
  {| AppcastURL := "https://example.com/appcast.xml";
     HttpHeadersString := "";
     AppBuildVersion := "1.0";
     CheckForUpdates := Some true;
     LastCheckTime := lastCheck;
     SkipThisVersion := None;
     UpdateCheckInterval := interval |}.

Definition world_at (now : Z) : World :=
  {| CheckForInsecureURL := fun _ _ => None;
     DownloadFile := fun _ _ => inr "<rss/>";
     Appcast_Load := fun _ => inr [];
     GetAvailableHost := "https://host";
     HttpGetWinINet := fun _ => "";
     ShouldAutomaticallyInstall := false;
     time := now |}.

(** An update-check interval of sixty days, in seconds. *)
Definition sixty_days : Z := 60 * 24 * 3600.

(** Settings with no feed URL, and settings in which checking was never
    configured. *)
Definition settings_without_feed : Settings :=
  {| AppcastURL := "";
     HttpHeadersString := "";
     AppBuildVersion := "1.0";
     CheckForUpdates := Some true;
     LastCheckTime := None;
     SkipThisVersion := None;
     UpdateCheckInterval := 3600 |}.

Definition settings_unconfigured : Settings :=
  {| AppcastURL := "https://example.com/appcast.xml";
     HttpHeadersString := "";
     AppBuildVersion := "1.0";
     CheckForUpdates := None;
     LastCheckTime := None;
     SkipThisVersion := None;
     UpdateCheckInterval := 86400 |}.

(* ========================================================================= *)
(** * Properties                                                              *)
(* ========================================================================= *)

(** ** The lexicographic order of strings *)

Lemma sgn_of_opp (c : comparison) : sgn_of (CompOpp c) = - sgn_of c.
Proof. destruct c; reflexivity. Qed.

Lemma ascii_compare_refl (c : ascii) : Ascii.compare c c = Eq.
Proof. unfold Ascii.compare. apply N.compare_refl. Qed.

Lemma string_lex_refl (s : string) : String.compare s s = Eq.
Proof.
  induction s as [|c s IH]; simpl; [reflexivity|].
  now rewrite ascii_compare_refl.
Qed.

Lemma string_lex_zero (a b : string) :
  sgn_of (String.compare a b) = 0 <-> a = b.
Proof.
  split.
  - intros H. apply String.compare_eq_iff.
    destruct (String.compare a b); simpl in H; [reflexivity|lia|lia].
  - intros ->. now rewrite string_lex_refl.
Qed.

(** Transitivity, in the one form that gives both the weak and the strict
    statement. *)
Lemma string_lex_trans (a b c : string) :
  sgn_of (String.compare a b) >= 0 ->
  sgn_of (String.compare b c) >= 0 ->
  sgn_of (String.compare a c) >= 0 /\
  (sgn_of (String.compare a b) > 0 \/ sgn_of (String.compare b c) > 0 ->
   sgn_of (String.compare a c) > 0).
Proof.
  revert b c.
  induction a as [|x a IH]; intros [|y b] [|z c]; simpl; try lia.
  unfold Ascii.compare.
  destruct (N.compare_spec (N_of_ascii x) (N_of_ascii y)) as [Hxy|Hxy|Hxy];
    destruct (N.compare_spec (N_of_ascii y) (N_of_ascii z)) as [Hyz|Hyz|Hyz];
    simpl; try lia; intros H1 H2.
  - rewrite Hxy, Hyz, N.compare_refl. now apply IH.
  - rewrite Hxy. apply N.compare_gt_iff in Hyz. rewrite Hyz. simpl. lia.
  - rewrite <- Hyz. apply N.compare_gt_iff in Hxy. rewrite Hxy. simpl. lia.
  - assert (Hxz : (N_of_ascii z < N_of_ascii x)%N) by lia.
    apply N.compare_gt_iff in Hxz. rewrite Hxz. simpl. lia.
Qed.

(** ** The order of version components *)

Section CompareFacts.

Context {R : Runtime}.

Lemma compare_part_nonzero (a b : string) (r : Z) :
  compare_part a b = Some r -> r <> 0.
Proof.
  unfold compare_part.
  destruct (ClassifyChar (char0 a)), (ClassifyChar (char0 b)); simpl;
    try (intros [= <-]; lia).
  - destruct (Z.gtb_spec (atoi a) (atoi b)); [intros [= <-]; lia|].
    destruct (Z.ltb_spec (atoi a) (atoi b)); [intros [= <-]; lia|discriminate].
  - destruct (Z.eqb_spec (string_compare a b) 0); simpl; [discriminate|].
    now intros [= <-].
Qed.

Lemma part_sgn_by_kind (a b : string) :
  part_sgn a b =
  match kind a, kind b with
  | Type_String, Type_String => sgn_of (String.compare a b)
  | Type_Number, Type_Number => Z.sgn (atoi a - atoi b)
  | Type_Period, Type_Period => 0
  | Type_String, _ => -1
  | _, Type_String => 1
  | Type_Number, Type_Period => 1
  | Type_Period, Type_Number => -1
  end.
Proof.
  unfold part_sgn, compare_part, kind.
  destruct (ClassifyChar (char0 a)), (ClassifyChar (char0 b)); simpl;
    try reflexivity.
  - pose proof (Z.sgn_spec (atoi a - atoi b)).
    destruct (Z.gtb_spec (atoi a) (atoi b)); [simpl; lia|].
    destruct (Z.ltb_spec (atoi a) (atoi b)); simpl; lia.
  - rewrite <- string_compare_sgn.
    destruct (Z.eqb_spec (string_compare a b) 0) as [E|E]; simpl;
      [now rewrite E|reflexivity].
Qed.

Lemma part_sgn_refl (a : string) : part_sgn a a = 0.
Proof.
  rewrite part_sgn_by_kind.
  destruct (kind a); [|reflexivity|].
  - now rewrite Z.sub_diag.
  - now rewrite string_lex_refl.
Qed.

Lemma part_sgn_antisym (a b : string) : part_sgn b a = - part_sgn a b.
Proof.
  rewrite !part_sgn_by_kind.
  destruct (kind a), (kind b); try reflexivity.
  - pose proof (Z.sgn_spec (atoi a - atoi b)).
    pose proof (Z.sgn_spec (atoi b - atoi a)). lia.
  - now rewrite String.compare_antisym, sgn_of_opp.
Qed.

Lemma part_sgn_trans (a b c : string) :
  part_sgn a b >= 0 -> part_sgn b c >= 0 ->
  part_sgn a c >= 0 /\
  (part_sgn a b > 0 \/ part_sgn b c > 0 -> part_sgn a c > 0).
Proof.
  rewrite !part_sgn_by_kind.
  destruct (kind a), (kind b), (kind c); try lia.
  apply string_lex_trans.
Qed.

(** A component is above or below the end of a version by its kind alone,
    and the end sits between the textual components and the others. *)
Lemma extra_sgn_mono (a b : string) :
  part_sgn a b >= 0 -> extra_sgn a >= extra_sgn b.
Proof.
  rewrite part_sgn_by_kind. unfold extra_sgn.
  destruct (kind a), (kind b); simpl; lia.
Qed.

Lemma extra_sgn_between (a c : string) :
  extra_sgn a = 1 -> extra_sgn c = -1 -> part_sgn a c > 0.
Proof.
  rewrite part_sgn_by_kind. unfold extra_sgn.
  destruct (kind a), (kind c); simpl; lia.
Qed.

Lemma extra_sgn_cases (a : string) : extra_sgn a = 1 \/ extra_sgn a = -1.
Proof. unfold extra_sgn. destruct (CharType_eqb _ _); auto. Qed.

(** ** The order of component lists *)

Lemma compare_parts_cons (a b : string) (pa pb : list string) :
  Z.sgn (compare_parts (a :: pa) (b :: pb)) =
  if part_sgn a b =? 0 then Z.sgn (compare_parts pa pb) else part_sgn a b.
Proof.
  simpl. unfold part_sgn.
  destruct (compare_part a b) as [r|] eqn:E; [|reflexivity].
  apply compare_part_nonzero in E.
  pose proof (Z.sgn_spec r).
  destruct (Z.eqb_spec (Z.sgn r) 0); [lia|reflexivity].
Qed.

Lemma compare_parts_extra_l (a : string) (pa : list string) :
  Z.sgn (compare_parts (a :: pa) []) = extra_sgn a.
Proof. simpl. unfold extra_sgn, kind. now destruct (CharType_eqb _ _). Qed.

Lemma compare_parts_extra_r (b : string) (pb : list string) :
  Z.sgn (compare_parts [] (b :: pb)) = - extra_sgn b.
Proof. simpl. unfold extra_sgn, kind. now destruct (CharType_eqb _ _). Qed.

Lemma compare_parts_refl (pa : list string) : compare_parts pa pa = 0.
Proof.
  induction pa as [|a pa IH]; [reflexivity|].
  simpl. pose proof (part_sgn_refl a) as H. unfold part_sgn in H.
  destruct (compare_part a a) as [r|] eqn:E; [|exact IH].
  apply compare_part_nonzero in E. pose proof (Z.sgn_spec r). lia.
Qed.

Lemma compare_parts_antisym (pa pb : list string) :
  Z.sgn (compare_parts pb pa) = - Z.sgn (compare_parts pa pb).
Proof.
  revert pb. induction pa as [|a pa IH]; intros [|b pb].
  - reflexivity.
  - rewrite compare_parts_extra_l, compare_parts_extra_r. lia.
  - rewrite compare_parts_extra_l, compare_parts_extra_r. lia.
  - rewrite !compare_parts_cons, (part_sgn_antisym a b), IH.
    destruct (Z.eqb_spec (part_sgn a b) 0), (Z.eqb_spec (- part_sgn a b) 0); lia.
Qed.

Lemma compare_parts_trans (pa pb pc : list string) :
  Z.sgn (compare_parts pa pb) >= 0 -> Z.sgn (compare_parts pb pc) >= 0 ->
  Z.sgn (compare_parts pa pc) >= 0 /\
  (Z.sgn (compare_parts pa pb) > 0 \/ Z.sgn (compare_parts pb pc) > 0 ->
   Z.sgn (compare_parts pa pc) > 0).
Proof.
  revert pb pc.
  induction pa as [|a pa IH]; intros [|b pb] [|c pc];
    rewrite ?compare_parts_cons, ?compare_parts_extra_l, ?compare_parts_extra_r;
    try (simpl; lia).
  - (* [] , b :: _ , c :: _ *)
    pose proof (extra_sgn_cases b). pose proof (extra_sgn_cases c).
    pose proof (extra_sgn_mono b c).
    destruct (Z.eqb_spec (part_sgn b c) 0); lia.
  - (* a :: _ , [] , c :: _ *)
    pose proof (extra_sgn_cases a). pose proof (extra_sgn_cases c).
    pose proof (extra_sgn_between a c).
    pose proof (extra_sgn_mono c a). pose proof (part_sgn_antisym a c).
    destruct (Z.eqb_spec (part_sgn a c) 0); lia.
  - (* a :: _ , b :: _ , [] *)
    pose proof (extra_sgn_cases a). pose proof (extra_sgn_cases b).
    pose proof (extra_sgn_mono a b).
    destruct (Z.eqb_spec (part_sgn a b) 0); lia.
  - pose proof (part_sgn_trans a b c) as T.
    pose proof (part_sgn_trans c b a) as T'.
    pose proof (part_sgn_antisym a b). pose proof (part_sgn_antisym b c).
    pose proof (part_sgn_antisym a c).
    specialize (IH pb pc).
    destruct (Z.eqb_spec (part_sgn a b) 0), (Z.eqb_spec (part_sgn b c) 0),
      (Z.eqb_spec (part_sgn a c) 0); lia.
Qed.

(** ** The loop of [CompareVersions] and the recursion on lists agree *)

Lemma compare_loop_shift (a b : string) (pa pb : list string) (i count : nat) :
  compare_loop (a :: pa) (b :: pb) (S i) count = compare_loop pa pb i count.
Proof.
  revert i. induction count as [|count IH]; intros i; simpl; [reflexivity|].
  destruct (compare_part (nth i pa "") (nth i pb "")); [reflexivity|apply IH].
Qed.

Lemma compare_split_parts (pa pb : list string) :
  compare_split pa pb = compare_parts pa pb.
Proof.
  revert pb. induction pa as [|a pa IH]; intros [|b pb]; try reflexivity.
  unfold compare_split at 1. simpl. rewrite <- IH.
  destruct (compare_part a b); [reflexivity|].
  rewrite compare_loop_shift. reflexivity.
Qed.

Lemma CompareVersions_parts (verA verB : string) :
  CompareVersions verA verB =
  compare_parts (SplitVersionString verA) (SplitVersionString verB).
Proof. apply compare_split_parts. Qed.

(** The comparator handed to [std::stable_sort] and the tests [< 0] and
    [>= 0] only look at the sign; these are the facts they rest on. *)
Lemma CompareVersions_refl (a : string) : CompareVersions a a = 0.
Proof. rewrite CompareVersions_parts. apply compare_parts_refl. Qed.

Lemma CompareVersions_antisym (a b : string) :
  Z.sgn (CompareVersions b a) = - Z.sgn (CompareVersions a b).
Proof. rewrite !CompareVersions_parts. apply compare_parts_antisym. Qed.

Lemma CompareVersions_trans (a b c : string) :
  CompareVersions a b >= 0 -> CompareVersions b c >= 0 ->
  CompareVersions a c >= 0 /\
  (CompareVersions a b > 0 \/ CompareVersions b c > 0 -> CompareVersions a c > 0).
Proof.
  rewrite !CompareVersions_parts. intros H1 H2.
  pose proof (compare_parts_trans (SplitVersionString a) (SplitVersionString b)
                (SplitVersionString c)) as T.
  lia.
Qed.

Lemma compare_part_range (a b : string) (r : Z) :
  compare_part a b = Some r ->
  r = 1 \/ r = -1 \/
  (kind a = Type_String /\ kind b = Type_String /\ r = string_compare a b).
Proof.
  unfold compare_part, kind.
  destruct (ClassifyChar (char0 a)), (ClassifyChar (char0 b)); simpl;
    try (intros [= <-]; auto).
  - destruct (atoi a >? atoi b); [intros [= <-]; auto|].
    destruct (atoi a <? atoi b); [intros [= <-]; auto|discriminate].
  - destruct (negb (string_compare a b =? 0)); [|discriminate].
    intros [= <-]. auto.
Qed.

Lemma compare_parts_range (pa pb : list string) :
  compare_parts pa pb = -1 \/ compare_parts pa pb = 0 \/ compare_parts pa pb = 1 \/
  exists (i : nat) (x y : string),
    nth_error pa i = Some x /\ nth_error pb i = Some y /\
    kind x = Type_String /\ kind y = Type_String /\
    compare_parts pa pb = string_compare x y.
Proof.
  revert pb. induction pa as [|a pa IH]; intros [|b pb]; simpl; auto.
  - destruct (CharType_eqb _ _); auto.
  - destruct (CharType_eqb _ _); auto.
  - destruct (compare_part a b) as [r|] eqn:E.
    + destruct (compare_part_range _ _ _ E) as [->|[->|(Ka & Kb & ->)]]; auto.
      right; right; right. exists 0%nat, a, b. auto.
    + destruct (IH pb) as [H|[H|[H|(i & x & y & Hx & Hy & Kx & Ky & H)]]]; auto.
      right; right; right. exists (S i), x, y. auto.
Qed.

End CompareFacts.

(** ** The specification's literal cases of the version order *)

(** [atoi] of a short run of digits is known in every runtime. *)
Ltac known_atoi :=
  repeat match goal with
         | |- context [atoi ?s] =>
             rewrite (atoi_digits s) by (vm_compute; first [reflexivity|discriminate])
         end.

Example split_example :
  SplitVersionString "1.20rc3" = ["1"; "."; "20"; "rc"; "3"] /\
  SplitVersionString "1..2" = ["1"; "."; "."; "2"].
Proof. split; reflexivity. Qed.

Example compare_literals (R : Runtime) :
  CompareVersions "1.2.0" "1.2rc1" = 1 /\
  CompareVersions "1.2rc1" "1.2.0" = -1 /\
  CompareVersions "1.5" "1.5b3" = 1 /\
  CompareVersions "1.5.1" "1.5" = 1 /\
  CompareVersions "2.0.0" "2.0" = 1 /\
  CompareVersions "2.0" "2.0" = 0.
Proof.
  unfold CompareVersions, compare_split; cbn; known_atoi.
  repeat split.
Qed.

(** The order is coarser than equality of strings, and a textual component
    is compared as [compare] compares it. *)
Example compare_more (R : Runtime) :
  CompareVersions "1.0" "1.00" = 0 /\
  CompareVersions "1.10" "1.9" = 1 /\
  CompareVersions "" "" = 0 /\
  CompareVersions "" "1" = -1 /\
  CompareVersions "" "rc" = 1 /\
  CompareVersions "1.0a" "1.0b" = string_compare "a" "b".
Proof.
  assert (H : string_compare "a" "b" <> 0).
  { pose proof (string_compare_sgn "a" "b") as H. simpl in H. lia. }
  apply Z.eqb_neq in H.
  unfold CompareVersions, compare_split; cbn; known_atoi; cbn.
  rewrite H. repeat split.
Qed.

(** ** The claims on the version order *)

(** C1. [CompareVersions] orders version strings: a version is equal to
    itself, swapping the arguments swaps the sign, and "greater than" is
    transitive, as is "not smaller than"; so [CompareVersions a b < 0] is a
    strict weak ordering, which is what a sort asks of its comparator.  This
    holds whatever the runtime's [compare] and [atoi] return within what the
    standards allow. *)
Theorem CompareVersions_total_order (R : Runtime) (a b c : string) :
  CompareVersions a a = 0 /\
  Z.sgn (CompareVersions a b) = - Z.sgn (CompareVersions b a) /\
  (CompareVersions a b > 0 -> CompareVersions b c > 0 -> CompareVersions a c > 0) /\
  (CompareVersions a b >= 0 -> CompareVersions b c >= 0 -> CompareVersions a c >= 0).
Proof.
  split; [apply CompareVersions_refl|].
  split; [apply CompareVersions_antisym|].
  split; intros H1 H2.
  - destruct (CompareVersions_trans a b c) as [_ T]; [lia|lia|].
    apply T. now left.
  - now destruct (CompareVersions_trans a b c).
Qed.

Lemma CompareVersions_total_order_witness :
  @CompareVersions normalising_runtime "1.5.1" "1.5b3" > 0.
Proof.
  apply (proj1 (proj2 (proj2
    (CompareVersions_total_order normalising_runtime "1.5.1" "1.5" "1.5b3"))));
    vm_compute; reflexivity.
Defined.

(** C5, as the code has it.  [CompareVersions] returns [-1], [0] or [1],
    except when a pair of textual components decides: then it returns what
    [compare] returned for that pair, unchanged. *)
Theorem CompareVersions_range (R : Runtime) (a b : string) :
  CompareVersions a b = -1 \/ CompareVersions a b = 0 \/ CompareVersions a b = 1 \/
  exists (i : nat) (x y : string),
    nth_error (SplitVersionString a) i = Some x /\
    nth_error (SplitVersionString b) i = Some y /\
    kind x = Type_String /\ kind y = Type_String /\
    CompareVersions a b = string_compare x y /\
    string_compare x y <> 0.
Proof.
  rewrite CompareVersions_parts.
  destruct (compare_parts_range (SplitVersionString a) (SplitVersionString b))
    as [H|[H|[H|(i & x & y & Hx & Hy & Kx & Ky & H)]]]; auto.
  destruct (Z.eq_dec (string_compare x y) 0) as [E|E].
  - right; left. congruence.
  - right; right; right. exists i, x, y. auto 7.
Qed.

(** C5, as stated, fails: with a [compare] that returns the byte difference
    the textual components ["a"] and ["c"] give [-2]. *)
Lemma CompareVersions_range_counterexample :
  @CompareVersions byte_difference_runtime "a" "c" = -2 /\
  ~ (forall (R : Runtime) (a b : string),
       CompareVersions a b = -1 \/ CompareVersions a b = 0 \/ CompareVersions a b = 1).
Proof.
  split; [reflexivity|].
  intros H. specialize (H byte_difference_runtime "a" "c").
  vm_compute in H. destruct H as [H|[H|H]]; discriminate H.
Qed.

(** ** Sorting and searching *)

Section StableSort.

Variable A : Type.
Variable less : A -> A -> bool.
Variable le : A -> A -> Prop.

Hypothesis less_le : forall x y, less x y = true -> le x y.
Hypothesis not_less_le : forall x y, less x y = false -> le y x.
Hypothesis le_trans : forall x y z, le x y -> le y z -> le x z.

Lemma insert_sorted_perm (x : A) (l : list A) :
  Permutation (x :: l) (insert_sorted less x l).
Proof.
  induction l as [|y l IH]; simpl; [reflexivity|].
  destruct (less y x); [|reflexivity].
  rewrite perm_swap. now apply perm_skip.
Qed.

Lemma stable_sort_perm (l : list A) : Permutation l (stable_sort less l).
Proof.
  induction l as [|x l IH]; simpl; [reflexivity|].
  rewrite <- insert_sorted_perm. now apply perm_skip.
Qed.

Lemma insert_sorted_strongly (x : A) (l : list A) :
  StronglySorted le l -> StronglySorted le (insert_sorted less x l).
Proof.
  induction 1 as [|y l Hs IH Hy]; simpl.
  - constructor; constructor.
  - destruct (less y x) eqn:E.
    + constructor; [exact IH|].
      rewrite <- insert_sorted_perm. constructor; [now apply less_le|exact Hy].
    + apply not_less_le in E.
      constructor; [now constructor|].
      constructor; [exact E|].
      rewrite Forall_forall in Hy |- *. intros z Hz. eauto.
Qed.

Lemma stable_sort_strongly (l : list A) : StronglySorted le (stable_sort less l).
Proof.
  induction l as [|x l IH]; simpl; [constructor|].
  now apply insert_sorted_strongly.
Qed.

(** The sort is stable: among the elements that the order does not tell
    apart from [z], the order of the input is kept. *)
Hypothesis less_strict : forall x y, less x y = true -> ~ le y x.

Lemma equivalent_le (z y : A) : equivalent less z y = true -> le y z /\ le z y.
Proof.
  unfold equivalent. rewrite andb_true_iff, !negb_true_iff.
  intros [H1 H2]. split; now apply not_less_le.
Qed.

Lemma insert_sorted_stable (z x : A) (l : list A) :
  filter (equivalent less z) (insert_sorted less x l) =
  if equivalent less z x then x :: filter (equivalent less z) l
  else filter (equivalent less z) l.
Proof.
  induction l as [|y l IH]; simpl; [reflexivity|].
  destruct (less y x) eqn:Lyx; simpl; [|reflexivity].
  rewrite IH.
  destruct (equivalent less z y) eqn:Ezy; [|reflexivity].
  destruct (equivalent less z x) eqn:Ezx; [|reflexivity].
  exfalso. apply equivalent_le in Ezy, Ezx.
  apply (less_strict _ _ Lyx). apply le_trans with z; tauto.
Qed.

Lemma stable_sort_stable (z : A) (l : list A) :
  filter (equivalent less z) (stable_sort less l) = filter (equivalent less z) l.
Proof.
  induction l as [|x l IH]; simpl; [reflexivity|].
  rewrite insert_sorted_stable, IH. reflexivity.
Qed.

(** In a sorted list nothing is above the last element. *)
Lemma strongly_sorted_last (l : list A) (d : A) :
  StronglySorted le l -> forall x, In x l -> x = last l d \/ le x (last l d).
Proof.
  induction 1 as [|y l Hs IH Hy]; intros x Hx; [contradiction|].
  destruct l as [|z l].
  - destruct Hx as [->|[]]. now left.
  - change (last (y :: z :: l) d) with (last (z :: l) d).
    destruct Hx as [<-|Hx].
    + right. rewrite Forall_forall in Hy.
      destruct (IH z (or_introl eq_refl)) as [E|E].
      * rewrite <- E. apply Hy. now left.
      * apply le_trans with z; [apply Hy; now left|exact E].
    + now apply IH.
Qed.

(** [std::find_if] returns the first element that satisfies the
    predicate. *)
Lemma find_first (f : A -> bool) (l : list A) (x : A) :
  List.find f l = Some x ->
  exists before after,
    l = (before ++ x :: after)%list /\ f x = true /\
    forall y, In y before -> f y = false.
Proof.
  induction l as [|y l IH]; simpl; [discriminate|].
  destruct (f y) eqn:E.
  - intros [= ->]. exists [], l. repeat split; [exact E|contradiction].
  - intros H. destruct (IH H) as (before & after & -> & Hx & Hb).
    exists (y :: before), after. repeat split; [exact Hx|].
    intros z [<-|Hz]; [exact E|now apply Hb].
Qed.

End StableSort.

(** ** Candidate selection *)

Section SelectionFacts.

Context {R : Runtime}.

Lemma version_less_le (x y : Appcast) : version_less x y = true -> version_le x y.
Proof. unfold version_less, version_le. lia. Qed.

Lemma version_not_less_le (x y : Appcast) :
  version_less x y = false -> version_le y x.
Proof.
  unfold version_less, version_le.
  pose proof (CompareVersions_antisym (Version x) (Version y)). lia.
Qed.

Lemma version_le_trans (x y z : Appcast) :
  version_le x y -> version_le y z -> version_le x z.
Proof.
  unfold version_le. intros H1 H2.
  pose proof (CompareVersions_antisym (Version x) (Version y)).
  pose proof (CompareVersions_antisym (Version y) (Version z)).
  pose proof (CompareVersions_antisym (Version x) (Version z)).
  destruct (CompareVersions_trans (Version z) (Version y) (Version x)); lia.
Qed.

Lemma critical_and_newer_iff (currentVersion : string) (x : Appcast) :
  critical_and_newer currentVersion x = true <-> qualifies currentVersion x.
Proof.
  unfold critical_and_newer, qualifies.
  now rewrite andb_true_iff, Z.ltb_lt.
Qed.

Lemma version_less_strict (x y : Appcast) :
  version_less x y = true -> ~ version_le y x.
Proof.
  unfold version_less, version_le.
  pose proof (CompareVersions_antisym (Version x) (Version y)). lia.
Qed.

Lemma sorted_by_version (all : list Appcast) :
  Permutation all (stable_sort version_less all) /\
  StronglySorted version_le (stable_sort version_less all).
Proof.
  split; [apply stable_sort_perm|].
  apply stable_sort_strongly;
    [exact version_less_le|exact version_not_less_le|exact version_le_trans].
Qed.

(** Entries of equivalent versions stay in the order of the feed. *)
Lemma sorted_by_version_stable (z : Appcast) (all : list Appcast) :
  filter (equivalent version_less z) (stable_sort version_less all) =
  filter (equivalent version_less z) all.
Proof.
  apply stable_sort_stable with (le := version_le);
    [exact version_not_less_le|exact version_le_trans|exact version_less_strict].
Qed.

(** The verdicts on the versions of the specification's example, which
    only compare small numbers and so do not depend on the runtime. *)
Lemma example_verdicts :
  version_less entry_3_0 entry_2_0_critical = false /\
  version_less entry_2_0_critical entry_1_0 = false /\
  version_less entry_2_0 entry_1_0 = false /\
  CompareVersions "0.5" "2.0" = -1.
Proof.
  unfold version_less, CompareVersions, compare_split; cbn; known_atoi.
  repeat split.
Qed.

Lemma example_sorted :
  stable_sort version_less example_entries = example_entries /\
  stable_sort version_less [entry_1_0; entry_2_0] = [entry_1_0; entry_2_0].
Proof.
  destruct example_verdicts as (H32 & H21 & H21' & _).
  unfold example_entries. cbv [stable_sort insert_sorted].
  now rewrite H32, H21, H21'.
Qed.

Lemma example_selection :
  pick_candidate "0.5" (stable_sort version_less example_entries) entry_1_0
    = entry_2_0_critical /\
  last (stable_sort version_less example_entries) entry_1_0 = entry_3_0.
Proof.
  destruct example_verdicts as (_ & _ & _ & H).
  rewrite (proj1 example_sorted). split; [|reflexivity].
  unfold pick_candidate, example_entries.
  cbv [List.find critical_and_newer CriticalUpdate Version entry_1_0
       entry_2_0_critical entry_3_0 andb].
  now rewrite H.
Qed.

Lemma example_selection_no_critical :
  pick_candidate "0.5" (stable_sort version_less [entry_1_0; entry_2_0])
    entry_1_0 = entry_2_0.
Proof.
  rewrite (proj2 example_sorted). reflexivity.
Qed.

End SelectionFacts.

(** C2. On the list sorted in ascending version order, the check picks the
    first entry that is critical and strictly newer than the running
    version, and otherwise the last entry, which no entry is above; on the
    specification's example that is "2.0" although "3.0" is the last. *)
Theorem pick_candidate_first_critical_else_last (R : Runtime)
    (currentVersion : string) (all : list Appcast) (first : Appcast) :
  let sorted := stable_sort version_less all in
  let chosen := pick_candidate currentVersion sorted first in
  (Permutation all sorted /\ StronglySorted version_le sorted) /\
  ((exists before after,
      sorted = (before ++ chosen :: after)%list /\
      qualifies currentVersion chosen /\
      forall x, In x before -> ~ qualifies currentVersion x)
   \/
   ((forall x, In x sorted -> ~ qualifies currentVersion x) /\
    chosen = last sorted first /\
    forall x, In x sorted -> version_le x chosen)) /\
  (pick_candidate "0.5" (stable_sort version_less example_entries) entry_1_0
     = entry_2_0_critical /\
   Version entry_2_0_critical = "2.0" /\
   last (stable_sort version_less example_entries) entry_1_0 = entry_3_0).
Proof.
  intros sorted chosen.
  split; [apply sorted_by_version|].
  split; [|destruct example_selection; auto].
  unfold chosen, pick_candidate.
  destruct (List.find (critical_and_newer currentVersion) sorted) as [x|] eqn:F.
  - left. destruct (find_first _ _ _ _ F) as (before & after & E & Hx & Hb).
    exists before, after. split; [exact E|].
    split; [now apply critical_and_newer_iff|].
    intros y Hy Q. apply critical_and_newer_iff in Q.
    rewrite (Hb y Hy) in Q. discriminate Q.
  - right. split; [|split; [reflexivity|]].
    + intros x Hx Q. apply critical_and_newer_iff in Q.
      rewrite (find_none _ _ F x Hx) in Q. discriminate Q.
    + intros x Hx.
      destruct (strongly_sorted_last _ _ version_le_trans sorted first
                  (proj2 (sorted_by_version all)) x Hx) as [<-|H]; [|exact H].
      unfold version_le. rewrite CompareVersions_refl. lia.
Qed.

(** ** The server-version probe *)


Lemma find_none_not_contains (s sub : string) :
  sub <> "" -> find s sub 0 = None -> ~ contains s sub.
Proof.
  intros Hne H [m Hm].
  exact (String.index_correct3 0 m sub s H Hne (Nat.le_0_l m) Hm).
Qed.




Lemma empty_false_iff (s : string) : empty s = false <-> s <> "".
Proof. destruct s; simpl; split; congruence. Qed.

Lemma append_assoc (a b c : string) : ((a ++ b) ++ c = a ++ (b ++ c))%string.
Proof. induction a as [|x a IH]; simpl; [reflexivity|now rewrite IH]. Qed.


Lemma substring_prefix (V rest : string) :
  String.substring 0 (String.length V) (V ++ rest) = V.
Proof.
  induction V as [|c V IH]; simpl.
  - now destruct rest.
  - now rewrite IH.
Qed.

Lemma index_skip (pre s1 s : string) :
  String.index (String.length pre) s1 (pre ++ s) =
  option_map (Nat.add (String.length pre)) (String.index 0 s1 s).
Proof.
  induction pre as [|c pre IH]; simpl.
  - now destruct (String.index 0 s1 s).
  - rewrite IH. now destruct (String.index 0 s1 s).
Qed.

Lemma substring_skip (pre s : string) (m : nat) :
  String.substring (String.length pre) m (pre ++ s) = String.substring 0 m s.
Proof. induction pre as [|c pre IH]; simpl; [reflexivity|exact IH]. Qed.











(** A process that has registered no callback has no world: there
    [GetAvailableHost] returns nothing. *)
Lemma unregistered_has_no_world (w : World) :
  ~ host_registered {| ms_cbGetAvailableHost := None |} w.
Proof. discriminate. Qed.

Example GetServerVersion_examples :
  GetServerVersion (probe_world response_version) = "3.4.1" /\
  GetServerVersion (probe_world response_404) = "2.1.2" /\
  GetServerVersion (probe_world response_500) = "" /\
  GetServerVersion (probe_world "<html>") = "" /\
  GetServerVersion (probe_world "") = "".
Proof. repeat split; vm_compute; reflexivity. Qed.





(** The name of the key inside another member's value misleads the scan
    the same way: here the text of the error message comes back as the
    server version. *)
Example GetServerVersion_key_in_value :
  GetServerVersion (probe_world response_key_in_info) = "HTTP 404".
Proof. reflexivity. Qed.

(** ** The filter on the minimum server version *)

Lemma char0_append (s t : string) : s <> "" -> char0 (s ++ t) = char0 s.
Proof. destruct s; [congruence|reflexivity]. Qed.

Lemma append_nonempty (s t : string) : s <> "" -> (s ++ t)%string <> "".
Proof. destruct s; [congruence|discriminate]. Qed.

(** The first component of a split starts where the string starts. *)
Lemma split_loop_first (rest : string) :
  forall (lst : list string) (s : string) (prevType : CharType),
    s <> "" ->
    exists (s' : string) (tl : list string),
      split_loop rest lst s prevType = (lst ++ s' :: tl)%list /\
      char0 s' = char0 s.
Proof.
  induction rest as [|c rest IH]; intros lst s prevType Hs; simpl.
  - exists s, []. auto.
  - destruct (negb (CharType_eqb prevType (ClassifyChar c))
              || CharType_eqb prevType Type_Period).
    + destruct (IH (lst ++ [s])%list (String c "") (ClassifyChar c))
        as (s' & tl & E & _); [discriminate|].
      exists s, (s' :: tl). rewrite E, <- app_assoc. auto.
    + destruct (IH lst (s ++ String c "")%string (ClassifyChar c))
        as (s' & tl & E & H); [now apply append_nonempty|].
      exists s', tl. rewrite E, H. split; [reflexivity|now apply char0_append].
Qed.

Lemma SplitVersionString_first (c : ascii) (rest : string) :
  exists (s' : string) (tl : list string),
    SplitVersionString (String c rest) = s' :: tl /\ char0 s' = c.
Proof.
  destruct (split_loop_first rest [] (String c "") (ClassifyChar c))
    as (s' & tl & E & H); [discriminate|].
  exists s', tl. auto.
Qed.

Section FilterFacts.

Context {R : Runtime}.

Lemma below_min_server_empty (appcast : Appcast) :
  below_min_server "" appcast = negb (passes_without_server_version appcast).
Proof.
  unfold below_min_server, passes_without_server_version.
  rewrite CompareVersions_parts.
  destruct (MinServerVersion appcast) as [|c rest]; [reflexivity|].
  destruct (SplitVersionString_first c rest) as (s' & tl & -> & H).
  simpl. rewrite H. now destruct (CharType_eqb (ClassifyChar c) Type_String).
Qed.

Lemma filter_min_server_empty (all : list Appcast) :
  filter_min_server "" all = filter passes_without_server_version all.
Proof.
  unfold filter_min_server. apply filter_ext. intros a.
  rewrite below_min_server_empty. apply negb_involutive.
Qed.

End FilterFacts.

(** ** One run of the update check, path by path *)

Lemma should_skip_written (this : Checker) (t : Z) (s : Settings)
    (appcast : Appcast) :
  should_skip this (set_LastCheckTime t s) appcast = should_skip this s appcast.
Proof. reflexivity. Qed.

Section RunFacts.

Context {R : Runtime}.

Lemma ShouldSkipUpdate_run (this : Checker) (appcast : Appcast) (st : State) :
  ShouldSkipUpdate this appcast st =
  (Returned (should_skip this (settings st) appcast), st).
Proof.
  destruct this; simpl; try reflexivity;
    unfold UpdateChecker_ShouldSkipUpdate;
    destruct (CriticalUpdate appcast); try reflexivity;
    unfold bind, read; now destruct (SkipThisVersion (settings st)).
Qed.

Lemma ShouldSkipUpdate_run_eq (this : Checker) (appcast : Appcast) (st : State)
    (skip : bool) :
  should_skip this (settings st) appcast = skip ->
  ShouldSkipUpdate this appcast st = (Returned skip, st).
Proof. intros <-. apply ShouldSkipUpdate_run. Qed.

Lemma report_candidate_run (this : Checker) (w : World) (show_dialog : bool)
    (currentVersion : string) (appcast : Appcast) (st : State) :
  report_candidate this w show_dialog currentVersion appcast st =
  match candidate_urls_check w appcast with
  | Some e => (Thrown e, st)
  | None =>
      if up_to_date currentVersion appcast
      then (Returned tt,
            add_log (written w st)
              [NotifyNoUpdates (ShouldAutomaticallyInstall w) show_dialog])
      else if should_skip this (settings st) appcast && negb show_dialog
      then (Returned tt, written w st)
      else (Returned tt,
            add_log (written w st)
              [NotifyUpdateAvailable appcast (ShouldAutomaticallyInstall w)])
  end.
Proof.
  unfold report_candidate, candidate_urls_check, up_to_date, bind, when.
  destruct (negb (empty (ReleaseNotesURL appcast)));
    [destruct (CheckForInsecureURL w (ReleaseNotesURL appcast) "release notes");
     [reflexivity|]|];
    (destruct (negb (empty (DownloadURL appcast)));
     [destruct (CheckForInsecureURL w (DownloadURL appcast) "update file");
      [reflexivity|]|]);
    simpl;
    (destruct (negb (IsValid appcast)
               || (CompareVersions currentVersion (Version appcast) >=? 0));
     [reflexivity|]);
    rewrite ShouldSkipUpdate_run; simpl;
    rewrite should_skip_written;
    now destruct (should_skip this (settings st) appcast && negb show_dialog).
Qed.

Lemma PerformUpdateCheck_body_run (this : Checker) (w : World)
    (show_dialog : bool) (st : State) :
  PerformUpdateCheck_body this w show_dialog st =
  match fetched w (settings st) with
  | inl e => (Thrown e, st)
  | inr [] =>
      (Returned tt,
       add_log st [NotifyNoUpdates (ShouldAutomaticallyInstall w) show_dialog])
  | inr (first :: rest) =>
      report_candidate this w show_dialog (AppBuildVersion (settings st))
        (candidate (settings st) first rest) st
  end.
Proof.
  unfold PerformUpdateCheck_body, fetched, candidate, bind, read, when.
  destruct (empty (AppcastURL (settings st))); [reflexivity|]. simpl.
  destruct (CheckForInsecureURL w (AppcastURL (settings st)) "appcast feed");
    [reflexivity|]. simpl.
  destruct (DownloadFile w (AppcastURL (settings st))
              (HttpHeadersString (settings st))); [reflexivity|]. simpl.
  destruct (Appcast_Load w s); [reflexivity|]. simpl.
  now destruct (filter_min_server (GetServerVersion w) l).
Qed.

End RunFacts.

Section PathFacts.

Context {R : Runtime}.

Lemma PerformUpdateCheck_catch_run (show_dialog : bool) (ex : Exn) (st : State) :
  PerformUpdateCheck_catch show_dialog ex st =
  (Thrown ex, after_catch show_dialog ex st).
Proof. destruct ex, show_dialog; reflexivity. Qed.

(** Every path through [PerformUpdateCheck], with the state it ends in. *)
Lemma PerformUpdateCheck_paths (this : Checker) (w : World) (show_dialog : bool)
    (st : State) :
  PerformUpdateCheck this w show_dialog st =
  match fetched w (settings st) with
  | inl e => (Thrown e, after_catch show_dialog e st)
  | inr [] =>
      (Returned tt,
       add_log st [NotifyNoUpdates (ShouldAutomaticallyInstall w) show_dialog])
  | inr (first :: rest) =>
      let appcast := candidate (settings st) first rest in
      match candidate_urls_check w appcast with
      | Some e => (Thrown e, after_catch show_dialog e st)
      | None =>
          if up_to_date (AppBuildVersion (settings st)) appcast
          then (Returned tt,
                add_log (written w st)
                  [NotifyNoUpdates (ShouldAutomaticallyInstall w) show_dialog])
          else if should_skip this (settings st) appcast && negb show_dialog
          then (Returned tt, written w st)
          else (Returned tt,
                add_log (written w st)
                  [NotifyUpdateAvailable appcast (ShouldAutomaticallyInstall w)])
      end
  end.
Proof.
  unfold PerformUpdateCheck, try_catch.
  rewrite PerformUpdateCheck_body_run.
  destruct (fetched w (settings st)) as [e|[|first rest]];
    [apply PerformUpdateCheck_catch_run|reflexivity|].
  rewrite report_candidate_run. cbv zeta.
  destruct (candidate_urls_check w (candidate (settings st) first rest));
    [apply PerformUpdateCheck_catch_run|].
  destruct (up_to_date _ _); [reflexivity|].
  now destruct (should_skip _ _ _ && negb show_dialog).
Qed.

End PathFacts.

Section ClaimFacts.

Context {R : Runtime}.

Lemma feed_loaded_fetched (w : World) (s : Settings) (feed : list Appcast) :
  feed_loaded w s feed ->
  fetched w s = inr (filter_min_server (GetServerVersion w) feed).
Proof.
  intros (Hu & Hc & xml & Hd & Hl). unfold fetched.
  apply empty_false_iff in Hu. now rewrite Hu, Hc, Hd, Hl.
Qed.

Lemma fetched_feed_loaded (w : World) (s : Settings) (l : list Appcast) :
  fetched w s = inr l ->
  exists feed,
    feed_loaded w s feed /\ l = filter_min_server (GetServerVersion w) feed.
Proof.
  unfold fetched, feed_loaded.
  destruct (empty (AppcastURL s)) eqn:Hu; [discriminate|].
  destruct (CheckForInsecureURL w (AppcastURL s) "appcast feed"); [discriminate|].
  destruct (DownloadFile w (AppcastURL s) (HttpHeadersString s)) as [|xml];
    [discriminate|].
  destruct (Appcast_Load w xml) as [|feed] eqn:Hl; [discriminate|].
  intros [= <-]. exists feed. apply empty_false_iff in Hu. eauto 7.
Qed.

Lemma no_candidate (w : World) (st : State) (l : Exn + list Appcast) :
  fetched w (settings st) = l ->
  (forall first rest, l = inr (first :: rest) ->
     candidate_urls_check w (candidate (settings st) first rest) <> None) ->
  ~ (exists feed first rest,
       feed_loaded w (settings st) feed /\
       filter_min_server (GetServerVersion w) feed = first :: rest /\
       candidate_urls_check w (candidate (settings st) first rest) = None).
Proof.
  intros F H (feed & first & rest & Hf & E & Hu).
  rewrite (feed_loaded_fetched _ _ _ Hf), E in F.
  exact (H first rest (eq_sym F) Hu).
Qed.

Lemma add_log_log (st : State) (evs : list Event) :
  log (add_log st evs) = (log st ++ evs)%list.
Proof. reflexivity. Qed.

Lemma after_catch_settings (show_dialog : bool) (e : Exn) (st : State) :
  settings (after_catch show_dialog e st) = settings st.
Proof. destruct e, show_dialog; reflexivity. Qed.

Lemma after_catch_log (show_dialog : bool) (e : Exn) (st : State) :
  exists evs,
    log (after_catch show_dialog e st) = (log st ++ evs)%list /\
    filter is_write evs = [].
Proof.
  destruct e, show_dialog; simpl;
    solve [eexists; split; [reflexivity|reflexivity]
          |exists []; split; [now rewrite app_nil_r|reflexivity]].
Qed.

End ClaimFacts.

(** ** The claims on the update check *)

(** C3, as the code has it.  The code has no absent server version: a
    probe that gets no response body gives the empty string.  Against the
    empty string the filter keeps exactly the entries whose minimum server
    version is empty or starts with a character that is neither a digit nor
    a period.  With the empty string for server version and the feed
    loaded, the check ends on "no updates" with nothing written exactly
    when the filter keeps no entry. *)
Theorem filter_without_server_version (R : Runtime) (w : World)
    (feed : list Appcast) :
  (HttpGetWinINet w (GetAvailableHost w ++ "/getVersion") = "" ->
   GetServerVersion w = "") /\
  filter_min_server "" feed = filter passes_without_server_version feed /\
  (forall (this : Checker) (show_dialog : bool) (st : State),
     GetServerVersion w = "" ->
     feed_loaded w (settings st) feed ->
     (PerformUpdateCheck this w show_dialog st =
      (Returned tt,
       add_log st [NotifyNoUpdates (ShouldAutomaticallyInstall w) show_dialog])
      <-> filter passes_without_server_version feed = [])).
Proof.
  split; [|split].
  - unfold GetServerVersion. now intros ->.
  - apply filter_min_server_empty.
  - intros this show_dialog st Hv Hf.
    rewrite PerformUpdateCheck_paths, (feed_loaded_fetched _ _ _ Hf), Hv.
    rewrite filter_min_server_empty.
    destruct (filter passes_without_server_version feed) as [|first rest];
      [split; reflexivity|].
    split; [|discriminate]. cbv zeta.
    destruct (candidate_urls_check w (candidate (settings st) first rest));
      [discriminate|].
    destruct (up_to_date _ _);
      [|destruct (should_skip _ _ _ && negb show_dialog)];
      intros [= _ E]; exfalso;
      rewrite <- ?app_assoc in E; apply app_inv_head in E; discriminate E.
Qed.

Lemma filter_without_server_version_witness :
  @PerformUpdateCheck normalising_runtime PeriodicUpdateChecker
    (example_world (inr "<rss/>") (inr [entry_needs_server]) "")
    false (initial (example_settings "0.5" None)) =
  (Returned tt,
   add_log (initial (example_settings "0.5" None)) [NotifyNoUpdates false false]).
Proof.
  apply (proj2 (proj2 (filter_without_server_version normalising_runtime
           (example_world (inr "<rss/>") (inr [entry_needs_server]) "")
           [entry_needs_server]))).
  - reflexivity.
  - split; [discriminate|]. split; [reflexivity|].
    exists "<rss/>". split; reflexivity.
  - reflexivity.
Defined.

(** C3, as stated, fails: the probe fails, the one entry of the feed names
    no minimum server version, and it passes the filter; the check then
    offers it instead of reporting "no updates". *)
Lemma filter_without_server_version_counterexample :
  GetServerVersion (example_world (inr "<rss/>") (inr [entry_2_0]) "") = "" /\
  @filter_min_server normalising_runtime "" [entry_2_0] = [entry_2_0] /\
  ~ (forall (R : Runtime) (feed : list Appcast), filter_min_server "" feed = []) /\
  @PerformUpdateCheck normalising_runtime PeriodicUpdateChecker
    (example_world (inr "<rss/>") (inr [entry_2_0]) "")
    false (initial (example_settings "1.0" None)) =
  (Returned tt,
   {| settings := set_LastCheckTime 1700000000 (example_settings "1.0" None);
      log := [WriteLastCheckTime 1700000000;
              NotifyUpdateAvailable entry_2_0 false] |}).
Proof.
  split; [reflexivity|]. split; [reflexivity|]. split; [|vm_compute; reflexivity].
  intros H. specialize (H normalising_runtime [entry_2_0]). discriminate H.
Qed.

(** How an aborted run ends: the exception is rethrown in every case, the
    settings are as they were, and the log grows by what the matching
    [catch] clause reports. *)
Lemma PerformUpdateCheck_thrown (R : Runtime) (this : Checker) (w : World)
    (show_dialog : bool) (st st' : State) (e : Exn) :
  PerformUpdateCheck this w show_dialog st = (Thrown e, st') ->
  st' = after_catch show_dialog e st.
Proof.
  rewrite PerformUpdateCheck_paths.
  destruct (fetched w (settings st)) as [e0|[|first rest]];
    [now intros [= <- <-]|discriminate|].
  cbv zeta.
  destruct (candidate_urls_check w (candidate (settings st) first rest));
    [now intros [= <- <-]|].
  destruct (up_to_date _ _); [discriminate|].
  destruct (should_skip _ _ _ && negb show_dialog); discriminate.
Qed.

(** C4, on the code.  A [DownloadException] and any other [std::exception]
    are reported exactly when [show_dialog] is set; the third clause,
    [catch (...)], reports without looking at [show_dialog]: a background
    check ([show_dialog = false]) whose download throws something that is
    not a [std::exception] still calls [UI::NotifyUpdateError], and
    rethrows. *)
Theorem PerformUpdateCheck_catch_all_reports :
  @PerformUpdateCheck normalising_runtime PeriodicUpdateChecker
    (example_world (inl OtherException) (inr []) "")
    false (initial (example_settings "1.0" None)) =
  (Thrown OtherException,
   add_log (initial (example_settings "1.0" None))
     [NotifyUpdateError Err_Generic "Unknown exception"]) /\
  @PerformUpdateCheck normalising_runtime PeriodicUpdateChecker
    (example_world (inl (DownloadException "timeout")) (inr []) "")
    false (initial (example_settings "1.0" None)) =
  (Thrown (DownloadException "timeout"), initial (example_settings "1.0" None)) /\
  @PerformUpdateCheck normalising_runtime PeriodicUpdateChecker
    (example_world (inr "<rss") (inl (StdException "parse error")) "")
    false (initial (example_settings "1.0" None)) =
  (Thrown (StdException "parse error"), initial (example_settings "1.0" None)) /\
  @PerformUpdateCheck normalising_runtime ManualUpdateChecker
    (example_world (inl (DownloadException "timeout")) (inr []) "")
    true (initial (example_settings "1.0" None)) =
  (Thrown (DownloadException "timeout"),
   add_log (initial (example_settings "1.0" None))
     [NotifyUpdateError Err_AppcastXmlUnavailable "timeout"]).
Proof. repeat split; vm_compute; reflexivity. Qed.

(** C6. A critical entry is never skipped; a non-critical one is skipped
    by the base class exactly when a stored skip version exists and is
    equal to the entry's version; the manual checker skips nothing; and an
    offered candidate goes unannounced only when [ShouldSkipUpdate] says
    [true] and [show_dialog] is [false]. *)
Theorem ShouldSkipUpdate_policy (R : Runtime) (appcast : Appcast) (st : State) :
  (CriticalUpdate appcast = true ->
   forall this, ShouldSkipUpdate this appcast st = (Returned false, st)) /\
  (CriticalUpdate appcast = false ->
   exists skip,
     UpdateChecker_ShouldSkipUpdate appcast st = (Returned skip, st) /\
     (skip = true <-> SkipThisVersion (settings st) = Some (Version appcast)) /\
     ShouldSkipUpdate PeriodicUpdateChecker appcast st = (Returned skip, st) /\
     ShouldSkipUpdate OneShotUpdateChecker appcast st = (Returned skip, st)) /\
  (ManualUpdateChecker_ShouldSkipUpdate appcast st = (Returned false, st) /\
   ShouldSkipUpdate ManualUpdateChecker appcast st = (Returned false, st)) /\
  (forall (this : Checker) (w : World) (show_dialog : bool) (currentVersion : string),
     candidate_urls_check w appcast = None ->
     IsValid appcast = true ->
     CompareVersions currentVersion (Version appcast) < 0 ->
     exists skip st',
       ShouldSkipUpdate this appcast st = (Returned skip, st) /\
       report_candidate this w show_dialog currentVersion appcast st
         = (Returned tt, st') /\
       ((skip = true /\ show_dialog = false /\
         log st' = (log st ++ [WriteLastCheckTime (time w)])%list)
        \/
        (~ (skip = true /\ show_dialog = false) /\
         log st' = (log st ++ [WriteLastCheckTime (time w);
                               NotifyUpdateAvailable appcast
                                 (ShouldAutomaticallyInstall w)])%list))).
Proof.
  split; [|split; [|split]].
  - intros Hc this. rewrite ShouldSkipUpdate_run. unfold should_skip.
    rewrite Hc. now destruct this.
  - intros Hc.
    exists (should_skip PeriodicUpdateChecker (settings st) appcast).
    pose proof (ShouldSkipUpdate_run PeriodicUpdateChecker appcast st) as H.
    split; [exact H|]. split; [|split; [exact H|exact H]].
    unfold should_skip. rewrite Hc.
    destruct (SkipThisVersion (settings st)) as [v|]; [|split; discriminate].
    rewrite String.eqb_eq. split; [now intros ->|now intros [= ->]].
  - split; reflexivity.
  - intros this w show_dialog currentVersion Hu Hv Hn.
    exists (should_skip this (settings st) appcast).
    rewrite report_candidate_run, Hu. unfold up_to_date. rewrite Hv. simpl.
    destruct (Z.geb_spec (CompareVersions currentVersion (Version appcast)) 0);
      [lia|].
    destruct (should_skip this (settings st) appcast) eqn:Hs, show_dialog; simpl;
      eexists; (split; [apply ShouldSkipUpdate_run_eq; exact Hs|]);
      (split; [reflexivity|]); simpl;
      first [left; repeat split; reflexivity
            |right; split; [intros [? ?]; discriminate|];
             now rewrite <- app_assoc].
Qed.

Lemma ShouldSkipUpdate_policy_witness :
  exists skip,
    UpdateChecker_ShouldSkipUpdate entry_2_0
      (initial (example_settings "1.0" (Some "2.0"))) =
    (Returned skip, initial (example_settings "1.0" (Some "2.0"))) /\
    (skip = true <->
     SkipThisVersion (settings (initial (example_settings "1.0" (Some "2.0"))))
       = Some (Version entry_2_0)) /\
    @ShouldSkipUpdate PeriodicUpdateChecker entry_2_0
      (initial (example_settings "1.0" (Some "2.0"))) =
    (Returned skip, initial (example_settings "1.0" (Some "2.0"))) /\
    @ShouldSkipUpdate OneShotUpdateChecker entry_2_0
      (initial (example_settings "1.0" (Some "2.0"))) =
    (Returned skip, initial (example_settings "1.0" (Some "2.0"))).
Proof.
  apply (proj1 (proj2 (ShouldSkipUpdate_policy normalising_runtime entry_2_0
                         (initial (example_settings "1.0" (Some "2.0")))))).
  reflexivity.
Defined.



(** C8. [LastCheckTime] is written at most once in a run, and exactly when
    a candidate was picked from a non-empty filtered list and its URLs
    passed the check; the write comes first among what follows, whichever
    way the comparison with the running version goes.  With an empty
    filtered list the run reports "no updates" and writes nothing. *)
Theorem LastCheckTime_written_once (R : Runtime) (this : Checker) (w : World)
    (show_dialog : bool) (st : State) :
  let r := fst (PerformUpdateCheck this w show_dialog st) in
  let st' := snd (PerformUpdateCheck this w show_dialog st) in
  ((exists evs,
      log st' = (log st ++ evs)%list /\
      filter is_write evs = [] /\
      settings st' = settings st /\
      ~ (exists feed first rest,
           feed_loaded w (settings st) feed /\
           filter_min_server (GetServerVersion w) feed = first :: rest /\
           candidate_urls_check w (candidate (settings st) first rest) = None))
   \/
   (exists feed first rest evs,
      feed_loaded w (settings st) feed /\
      filter_min_server (GetServerVersion w) feed = first :: rest /\
      candidate_urls_check w (candidate (settings st) first rest) = None /\
      r = Returned tt /\
      log st' = (log st ++ WriteLastCheckTime (time w) :: evs)%list /\
      filter is_write evs = [] /\
      settings st' = set_LastCheckTime (time w) (settings st) /\
      ((up_to_date (AppBuildVersion (settings st))
          (candidate (settings st) first rest) = true /\
        evs = [NotifyNoUpdates (ShouldAutomaticallyInstall w) show_dialog])
       \/
       (up_to_date (AppBuildVersion (settings st))
          (candidate (settings st) first rest) = false /\
        (evs = [] \/
         evs = [NotifyUpdateAvailable (candidate (settings st) first rest)
                  (ShouldAutomaticallyInstall w)])))))
  /\
  (forall feed,
     feed_loaded w (settings st) feed ->
     filter_min_server (GetServerVersion w) feed = [] ->
     r = Returned tt /\
     st' = add_log st [NotifyNoUpdates (ShouldAutomaticallyInstall w) show_dialog]).
Proof.
  cbv zeta. rewrite PerformUpdateCheck_paths.
  split.
  - destruct (fetched w (settings st)) as [e|[|first rest]] eqn:F.
    + left. destruct (after_catch_log show_dialog e st) as (evs & E & Hw).
      exists evs. simpl. rewrite after_catch_settings.
      repeat split; [exact E|exact Hw|].
      apply (no_candidate _ _ _ F). discriminate.
    + left. exists [NotifyNoUpdates (ShouldAutomaticallyInstall w) show_dialog].
      repeat split. apply (no_candidate _ _ _ F). discriminate.
    + cbv zeta.
      destruct (candidate_urls_check w (candidate (settings st) first rest))
        as [e|] eqn:U.
      * left. destruct (after_catch_log show_dialog e st) as (evs & E & Hw).
        exists evs. simpl. rewrite after_catch_settings.
        repeat split; [exact E|exact Hw|].
        apply (no_candidate _ _ _ F). intros f r [= <- <-]. rewrite U. discriminate.
      * right. destruct (fetched_feed_loaded _ _ _ F) as (feed & Hf & E).
        exists feed, first, rest.
        destruct (up_to_date _ _) eqn:O;
          [|destruct (should_skip _ _ _ && negb show_dialog)];
          eexists; simpl;
          (split; [exact Hf|]); (split; [now rewrite <- E|]);
          (split; [exact U|]); (split; [reflexivity|]);
          (split; [first [rewrite <- app_assoc; reflexivity|reflexivity]|]).
        -- split; [reflexivity|]. split; [reflexivity|]. left. auto.
        -- split; [reflexivity|]. split; [reflexivity|]. right. auto.
        -- split; [reflexivity|]. split; [reflexivity|]. right. auto.
  - intros feed Hf E. rewrite (feed_loaded_fetched _ _ _ Hf), E. auto.
Qed.

Lemma LastCheckTime_written_once_witness :
  fst (@PerformUpdateCheck normalising_runtime PeriodicUpdateChecker
         (example_world (inr "<rss/>") (inr [entry_needs_server]) "")
         false (initial (example_settings "0.5" None))) = Returned tt /\
  snd (@PerformUpdateCheck normalising_runtime PeriodicUpdateChecker
         (example_world (inr "<rss/>") (inr [entry_needs_server]) "")
         false (initial (example_settings "0.5" None))) =
  add_log (initial (example_settings "0.5" None)) [NotifyNoUpdates false false].
Proof.
  apply (proj2 (LastCheckTime_written_once normalising_runtime
                  PeriodicUpdateChecker
                  (example_world (inr "<rss/>") (inr [entry_needs_server]) "")
                  false (initial (example_settings "0.5" None)))
           [entry_needs_server]).
  - split; [discriminate|]. split; [reflexivity|].
    exists "<rss/>". split; reflexivity.
  - reflexivity.
Defined.

(** ** The periodic scheduler *)

Lemma to_unsigned_small (z : Z) : 0 <= z < 2 ^ 32 -> to_unsigned z = z.
Proof. intros H. unfold to_unsigned. now apply Z.mod_small. Qed.

(** C9, on the code.  For waits that fit, a turn does what the
    specification says.  With the last check at [T] and an interval of 3600
    seconds: at [T + 1800] no check runs and the wait is 1800 seconds; at
    [T + 3600] the check runs with [show_dialog = false] and the wait that
    follows is 3600 seconds.  But line 480 multiplies [sleepTimeInSeconds]
    by 1000 in [unsigned] arithmetic, and the product wraps for every wait
    above 4294967 seconds (49.7 days).  With an interval of sixty days, the
    turn in which the check is due waits 889032704 milliseconds after it,
    some ten days, where the interval is 5184000000 milliseconds; and a
    turn one hour after the last check, with 5180400 seconds left, waits
    885432704 milliseconds. *)
Theorem PeriodicUpdateChecker_Run_wait_overflow (R : Runtime) :
  let T := 1700000000 in
  let hourly := initial (scheduler_settings (Some T) 3600) in
  let two_monthly := initial (scheduler_settings (Some T) sixty_days) in
  PeriodicUpdateChecker_Run_turn (world_at (T + 1800)) hourly
    = (Returned tt, add_log hourly [WaitUntilSignaled (1800 * 1000)]) /\
  PeriodicUpdateChecker_Run_turn (world_at (T + 3600)) hourly
    = (Returned tt,
       add_log hourly [NotifyNoUpdates false false;
                       WaitUntilSignaled (3600 * 1000)]) /\
  PeriodicUpdateChecker_Run_turn (world_at (T + sixty_days)) two_monthly
    = (Returned tt,
       add_log two_monthly [NotifyNoUpdates false false;
                            WaitUntilSignaled 889032704]) /\
  889032704 < sixty_days * 1000 /\
  PeriodicUpdateChecker_Run_turn (world_at (T + 3600)) two_monthly
    = (Returned tt, add_log two_monthly [WaitUntilSignaled 885432704]) /\
  885432704 < (T + sixty_days - (T + 3600)) * 1000.
Proof.
  cbv zeta. repeat split; reflexivity.
Qed.

(* ========================================================================= *)
(** * Further properties of the code                                          *)
(* ========================================================================= *)

(** ** [SplitVersionString] *)

Lemma append_empty_r (a : string) : (a ++ "")%string = a.
Proof. induction a as [|x a IH]; simpl; [reflexivity|now rewrite IH]. Qed.

Lemma flatten_app (l1 l2 : list string) :
  flatten (l1 ++ l2) = (flatten l1 ++ flatten l2)%string.
Proof.
  induction l1 as [|s l1 IH]; simpl; [reflexivity|].
  now rewrite IH, append_assoc.
Qed.

(** The vector built so far only grows at its end. *)
Lemma split_loop_app (rest : string) :
  forall (lst : list string) (s : string) (prevType : CharType),
    split_loop rest lst s prevType = (lst ++ split_loop rest [] s prevType)%list.
Proof.
  induction rest as [|c rest IH]; intros lst s prevType; simpl; [reflexivity|].
  destruct (negb (CharType_eqb prevType (ClassifyChar c))
            || CharType_eqb prevType Type_Period).
  - rewrite (IH (lst ++ [s])%list), (IH ([] ++ [s])%list).
    now rewrite <- app_assoc.
  - apply IH.
Qed.

Lemma split_loop_flatten (rest : string) :
  forall (s : string) (prevType : CharType),
    flatten (split_loop rest [] s prevType) = (s ++ rest)%string.
Proof.
  induction rest as [|c rest IH]; intros s prevType; simpl.
  - reflexivity.
  - destruct (negb (CharType_eqb prevType (ClassifyChar c))
              || CharType_eqb prevType Type_Period).
    + rewrite split_loop_app. simpl. now rewrite IH.
    + rewrite IH, append_assoc. reflexivity.
Qed.

(** X1. Splitting loses nothing: the components of a version string, put
    back together in order, are the string. *)
Theorem SplitVersionString_flatten (version : string) :
  flatten (SplitVersionString version) = version.
Proof.
  destruct version as [|c rest]; [reflexivity|].
  apply split_loop_flatten.
Qed.

Lemma CharType_eqb_eq (x y : CharType) : CharType_eqb x y = true <-> x = y.
Proof. destruct x, y; simpl; split; congruence. Qed.

Lemma CharType_eqb_refl (x : CharType) : CharType_eqb x x = true.
Proof. now destruct x. Qed.

Lemma breaks_false (prev next : CharType) :
  breaks prev next = false -> prev = next /\ prev <> Type_Period.
Proof. unfold breaks. destruct prev, next; simpl; intros H; split; congruence. Qed.

Lemma ClassifyChar_period (c : ascii) :
  ClassifyChar c = Type_Period -> c = "."%char.
Proof.
  unfold ClassifyChar. destruct (Ascii.eqb_spec c "."); [easy|].
  destruct (is_digit c); discriminate.
Qed.

Lemma ClassifyChar_number (c : ascii) :
  ClassifyChar c = Type_Number -> is_digit c = true.
Proof.
  unfold ClassifyChar. destruct (Ascii.eqb c "."); [discriminate|].
  destruct (is_digit c); [reflexivity|discriminate].
Qed.

Lemma uniform_app (t : CharType) (a b : string) :
  uniform t (a ++ b) = uniform t a && uniform t b.
Proof.
  induction a as [|x a IH]; simpl; [reflexivity|].
  now rewrite IH, andb_assoc.
Qed.

Lemma uniform_kind (t : CharType) (s : string) :
  s <> "" -> uniform t s = true -> kind s = t.
Proof.
  destruct s as [|c s]; [congruence|]. simpl. intros _ H.
  apply andb_prop in H as [H _]. now apply CharType_eqb_eq.
Qed.

Lemma uniform_number_digits (s : string) :
  uniform Type_Number s = true -> all_digits s = true.
Proof.
  induction s as [|c s IH]; simpl; [reflexivity|].
  intros H. apply andb_prop in H as [Hc Hs].
  apply CharType_eqb_eq, ClassifyChar_number in Hc. now rewrite Hc, IH.
Qed.

Lemma well_formed_part_intro (t : CharType) (s : string) :
  s <> "" -> uniform t s = true -> (t = Type_Period -> s = ".") ->
  well_formed_part s.
Proof.
  intros Hs Hu Hp. pose proof (uniform_kind _ _ Hs Hu) as K.
  unfold well_formed_part. rewrite K.
  repeat split; [exact Hs|exact Hu|exact Hp|].
  intros ->. now apply uniform_number_digits.
Qed.

Lemma split_loop_well_formed (rest : string) :
  forall (s : string) (prevType : CharType),
    s <> "" -> uniform prevType s = true ->
    (prevType = Type_Period -> s = ".") ->
    Forall well_formed_part (split_loop rest [] s prevType).
Proof.
  induction rest as [|c rest IH]; intros s prevType Hs Hu Hp; simpl.
  - constructor; [|constructor]. now apply well_formed_part_intro with prevType.
  - fold (breaks prevType (ClassifyChar c)).
    destruct (breaks prevType (ClassifyChar c)) eqn:B.
    + rewrite split_loop_app. simpl. constructor.
      * now apply well_formed_part_intro with prevType.
      * apply IH; [discriminate|simpl; now rewrite CharType_eqb_refl|].
        intros H. apply ClassifyChar_period in H. now subst.
    + apply breaks_false in B as [E Np]. apply IH.
      * now apply append_nonempty.
      * rewrite uniform_app. simpl. now rewrite <- E, Hu, CharType_eqb_refl.
      * intros H. congruence.
Qed.

(** X2. Every component of a split is non-empty and made of characters of
    one type; a period component is the single character ".", and a number
    component is a run of digits, so that [atoi] reads all of it. *)
Theorem SplitVersionString_well_formed (version : string) :
  Forall well_formed_part (SplitVersionString version).
Proof.
  destruct version as [|c rest]; [constructor|].
  apply split_loop_well_formed; [discriminate|simpl; now rewrite CharType_eqb_refl|].
  intros H. apply ClassifyChar_period in H. now subst.
Qed.

Lemma split_loop_maximal (rest : string) :
  forall (s : string) (prevType : CharType),
    s <> "" -> uniform prevType s = true ->
    maximal_runs (split_loop rest [] s prevType) /\
    exists s' tl, split_loop rest [] s prevType = s' :: tl /\ kind s' = prevType.
Proof.
  induction rest as [|c rest IH]; intros s prevType Hs Hu; simpl.
  - split; [exact I|]. exists s, []. split; [reflexivity|now apply uniform_kind].
  - fold (breaks prevType (ClassifyChar c)).
    destruct (breaks prevType (ClassifyChar c)) eqn:B.
    + rewrite split_loop_app.
      destruct (IH (String c "") (ClassifyChar c)) as (M & s' & tl & E & K);
        [discriminate|simpl; now rewrite CharType_eqb_refl|].
      rewrite E in *. split.
      * change (breaks (kind s) (kind s') = true /\ maximal_runs (s' :: tl)).
        rewrite K, (uniform_kind _ _ Hs Hu). split; assumption.
      * exists s, (s' :: tl). split; [reflexivity|now apply uniform_kind].
    + apply breaks_false in B as [E Np].
      destruct (IH (s ++ String c "")%string (ClassifyChar c)) as (M & s' & tl & E' & K).
      * now apply append_nonempty.
      * rewrite uniform_app. simpl. now rewrite <- E, Hu, CharType_eqb_refl.
      * split; [exact M|]. exists s', tl. split; [exact E'|congruence].
Qed.

(** X3. The components are as long as they can be: two neighbours are of
    different types, unless the first of them is a period (so ".." gives
    two components). *)
Theorem SplitVersionString_maximal (version : string) :
  maximal_runs (SplitVersionString version).
Proof.
  destruct version as [|c rest]; [exact I|].
  apply split_loop_maximal; [discriminate|simpl; now rewrite CharType_eqb_refl].
Qed.

Lemma split_loop_concat (r1 : string) :
  forall (lst : list string) (s : string) (prevType : CharType)
         (c : ascii) (r2 : string),
    breaks (last_type prevType r1) (ClassifyChar c) = true ->
    split_loop (r1 ++ String c r2) lst s prevType =
    (split_loop r1 lst s prevType
       ++ split_loop r2 [] (String c "") (ClassifyChar c))%list.
Proof.
  induction r1 as [|d r1 IH]; intros lst s prevType c r2 B; simpl in *.
  - fold (breaks prevType (ClassifyChar c)). rewrite B.
    apply split_loop_app.
  - destruct (negb (CharType_eqb prevType (ClassifyChar d))
              || CharType_eqb prevType Type_Period); now apply IH.
Qed.

Lemma split_app (a b : string) :
  a <> "" -> b <> "" ->
  breaks (last_type Type_String a) (kind b) = true ->
  SplitVersionString (a ++ b) =
  (SplitVersionString a ++ SplitVersionString b)%list.
Proof.
  destruct a as [|x a]; [congruence|].
  destruct b as [|c b]; [congruence|].
  intros _ _ B. simpl in B. simpl. now apply split_loop_concat.
Qed.

(** X4. Splitting goes through concatenation wherever the loop would
    start a new segment: if [a] ends and [b] starts with characters of
    different types, or [a] ends with a period, the components of [a ++ b]
    are those of [a] followed by those of [b]. *)
Theorem SplitVersionString_app (a b : string) :
  a <> "" -> b <> "" ->
  breaks (last_type Type_String a) (kind b) = true ->
  SplitVersionString (a ++ b) =
  (SplitVersionString a ++ SplitVersionString b)%list.
Proof. apply split_app. Qed.

Lemma SplitVersionString_app_witness :
  SplitVersionString ("1.5" ++ "b3") =
  (SplitVersionString "1.5" ++ SplitVersionString "b3")%list.
Proof.
  apply SplitVersionString_app; [discriminate|discriminate|reflexivity].
Defined.

(** ** [CompareVersions] *)

Section MoreCompareFacts.

Context {R : Runtime}.

Lemma part_sgn_zero_iff (x y : string) : part_sgn x y = 0 <-> same_part x y.
Proof.
  rewrite part_sgn_by_kind. unfold same_part.
  destruct (kind x), (kind y); try (split; [lia|tauto]).
  - split; lia.
  - apply string_lex_zero.
Qed.

Lemma compare_part_self (a : string) : compare_part a a = None.
Proof.
  pose proof (part_sgn_refl a) as H. unfold part_sgn in H.
  destruct (compare_part a a) as [r|] eqn:E; [|reflexivity].
  apply compare_part_nonzero in E. lia.
Qed.

Lemma compare_parts_zero_iff (pa pb : list string) :
  compare_parts pa pb = 0 <-> Forall2 same_part pa pb.
Proof.
  revert pb. induction pa as [|a pa IH]; intros [|b pb].
  - simpl. split; [constructor|reflexivity].
  - simpl. destruct (CharType_eqb _ _); split; try lia; intros H; inversion H.
  - simpl. destruct (CharType_eqb _ _); split; try lia; intros H; inversion H.
  - pose proof (compare_parts_cons a b pa pb) as C.
    pose proof (part_sgn_zero_iff a b) as P.
    split.
    + intros H. rewrite H in C.
      destruct (Z.eqb_spec (part_sgn a b) 0) as [E|E]; [|lia].
      constructor; [now apply P|]. apply IH. lia.
    + intros H. inversion H as [|? ? ? ? Hab Hrest]; subst.
      apply P in Hab. rewrite Hab in C.
      change (0 =? 0) with true in C. cbv iota in C.
      apply IH in Hrest. rewrite Hrest in C. lia.
Qed.

Lemma compare_parts_prefix (pa : list string) (t : string) (l : list string) :
  compare_parts pa (pa ++ t :: l) =
  (if CharType_eqb (kind t) Type_String then 1 else -1) /\
  compare_parts (pa ++ t :: l) pa =
  (if CharType_eqb (kind t) Type_String then -1 else 1).
Proof.
  induction pa as [|a pa IH]; simpl.
  - split; reflexivity.
  - now rewrite compare_part_self.
Qed.

End MoreCompareFacts.

(** X5. Against the empty version string: two empty strings are equal; a
    version that starts with a digit or a period is above the empty string,
    and one that starts with any other character is below it. *)
Theorem CompareVersions_empty (R : Runtime) (v : string) :
  CompareVersions "" v =
  match v with
  | EmptyString => 0
  | String c _ => if CharType_eqb (ClassifyChar c) Type_String then 1 else -1
  end /\
  CompareVersions v "" =
  match v with
  | EmptyString => 0
  | String c _ => if CharType_eqb (ClassifyChar c) Type_String then -1 else 1
  end.
Proof.
  rewrite !CompareVersions_parts.
  destruct v as [|c rest]; [split; reflexivity|].
  destruct (SplitVersionString_first c rest) as (s' & tl & -> & H).
  simpl. rewrite H. split; reflexivity.
Qed.

(** X6. Two version strings compare equal exactly when they split into the
    same number of components and the components match one by one: equal
    text, numbers of equal [atoi] value, or periods. *)
Theorem CompareVersions_zero_iff (R : Runtime) (a b : string) :
  CompareVersions a b = 0 <->
  Forall2 same_part (SplitVersionString a) (SplitVersionString b).
Proof. rewrite CompareVersions_parts. apply compare_parts_zero_iff. Qed.

(** X8. A version and the same version with more text after it, where the
    addition starts a new component: the addition makes the version older
    when it starts with a letter (1.5 is above 1.5b3) and newer when it
    starts with a digit or a period (1.5.1 is above 1.5). *)
Theorem CompareVersions_suffix (R : Runtime) (a : string) (c : ascii)
    (rest : string) :
  a <> "" ->
  breaks (last_type Type_String a) (ClassifyChar c) = true ->
  CompareVersions a (a ++ String c rest) =
  (if CharType_eqb (ClassifyChar c) Type_String then 1 else -1) /\
  CompareVersions (a ++ String c rest) a =
  (if CharType_eqb (ClassifyChar c) Type_String then -1 else 1).
Proof.
  intros Ha B. rewrite !CompareVersions_parts.
  rewrite split_app; [|exact Ha|discriminate|exact B].
  destruct (SplitVersionString_first c rest) as (s' & tl & -> & H).
  pose proof (compare_parts_prefix (SplitVersionString a) s' tl) as P.
  unfold kind in P. rewrite H in P. exact P.
Qed.

Lemma CompareVersions_suffix_witness :
  @CompareVersions normalising_runtime "1.5" ("1.5" ++ "b3") = 1 /\
  @CompareVersions normalising_runtime ("1.5" ++ "b3") "1.5" = -1.
Proof.
  apply (CompareVersions_suffix normalising_runtime "1.5" "b" "3");
    [discriminate|reflexivity].
Defined.

Lemma is_digit_number (c : ascii) : is_digit c = true -> ClassifyChar c = Type_Number.
Proof.
  intros H. unfold ClassifyChar. rewrite H.
  destruct (Ascii.eqb_spec c "."); [subst; discriminate H|reflexivity].
Qed.

Lemma all_digits_uniform (s : string) :
  all_digits s = true -> uniform Type_Number s = true.
Proof.
  induction s as [|c s IH]; simpl; [reflexivity|].
  intros H. apply andb_prop in H as [Hc Hs].
  now rewrite (is_digit_number _ Hc), IH.
Qed.

Lemma all_digits_last_type (s : string) (t : CharType) :
  s <> "" -> all_digits s = true -> last_type t s = Type_Number.
Proof.
  revert t. induction s as [|c s IH]; intros t Hs H; [congruence|].
  simpl in *. apply andb_prop in H as [Hc Hd].
  destruct s as [|d s]; [simpl; now apply is_digit_number|].
  apply IH; [discriminate|exact Hd].
Qed.

Lemma split_loop_digits (rest : string) :
  forall s : string,
    all_digits rest = true ->
    split_loop rest [] s Type_Number = [(s ++ rest)%string].
Proof.
  induction rest as [|c rest IH]; intros s H; simpl.
  - now rewrite append_empty_r.
  - simpl in H. apply andb_prop in H as [Hc Hd].
    rewrite (is_digit_number _ Hc). simpl.
    rewrite (IH _ Hd), append_assoc. reflexivity.
Qed.

Lemma SplitVersionString_digits (n : string) :
  n <> "" -> all_digits n = true -> SplitVersionString n = [n].
Proof.
  destruct n as [|c rest]; [congruence|]. simpl.
  intros _ H. apply andb_prop in H as [Hc Hd].
  rewrite (is_digit_number _ Hc). now apply split_loop_digits.
Qed.

Lemma numeric_part_kind (n : string) : numeric_part n -> kind n = Type_Number.
Proof.
  intros (Hn & Hd & _). apply uniform_kind; [exact Hn|].
  now apply all_digits_uniform.
Qed.

Lemma dotted_nonempty (n : string) (ns : list string) :
  n <> "" -> dotted (n :: ns) <> "".
Proof.
  intros Hn. simpl. destruct ns; [exact Hn|]. now apply append_nonempty.
Qed.

Lemma dotted_kind (n : string) (ns : list string) :
  numeric_part n -> kind (dotted (n :: ns)) = Type_Number.
Proof.
  intros Hn. pose proof (numeric_part_kind _ Hn) as K.
  simpl. destruct ns; [exact K|].
  unfold kind in *. destruct Hn as (Hne & _).
  now rewrite char0_append.
Qed.

Lemma SplitVersionString_dotted (ns : list string) :
  Forall numeric_part ns -> SplitVersionString (dotted ns) = dotted_parts ns.
Proof.
  induction 1 as [|n ns Hn Hns IH]; [reflexivity|].
  destruct Hn as (Hne & Hd & Hv).
  destruct ns as [|n' ns]; [now apply SplitVersionString_digits|].
  change (dotted (n :: n' :: ns)) with (n ++ "." ++ dotted (n' :: ns))%string.
  change (dotted_parts (n :: n' :: ns)) with (n :: "." :: dotted_parts (n' :: ns)).
  inversion Hns as [|? ? Hn' _]; subst.
  rewrite split_app;
    [|exact Hne|discriminate
     |now rewrite (all_digits_last_type _ _ Hne Hd)].
  rewrite (SplitVersionString_digits _ Hne Hd).
  rewrite (split_app "." (dotted (n' :: ns)));
    [|discriminate|apply dotted_nonempty; apply Hn'
     |unfold breaks; simpl; apply orb_true_r].
  rewrite IH. reflexivity.
Qed.

Section DottedFacts.

Context {R : Runtime}.

Lemma compare_part_numeric (m n : string) :
  numeric_part m -> numeric_part n ->
  compare_part m n =
  if decimal_value m >? decimal_value n then Some 1
  else if decimal_value m <? decimal_value n then Some (-1)
  else None.
Proof.
  intros Hm Hn. unfold compare_part.
  pose proof (numeric_part_kind _ Hm) as Km.
  pose proof (numeric_part_kind _ Hn) as Kn.
  unfold kind in Km, Kn. rewrite Km, Kn. simpl.
  destruct Hm as (_ & Hdm & Hvm), Hn as (_ & Hdn & Hvn).
  now rewrite (atoi_digits _ Hdm Hvm), (atoi_digits _ Hdn Hvn).
Qed.

Lemma compare_parts_dotted (ms : list string) :
  forall ns : list string,
    Forall numeric_part ms -> Forall numeric_part ns ->
    compare_parts (dotted_parts ms) (dotted_parts ns) =
    numeric_compare (map decimal_value ms) (map decimal_value ns).
Proof.
  induction ms as [|m ms IH]; intros ns Hms Hns.
  - destruct ns as [|n ns]; [reflexivity|].
    inversion Hns as [|? ? Hn _]; subst.
    pose proof (numeric_part_kind _ Hn) as K. unfold kind in K.
    destruct ns; simpl; now rewrite K.
  - inversion Hms as [|? ? Hm Hms']; subst.
    destruct ns as [|n ns].
    + pose proof (numeric_part_kind _ Hm) as K. unfold kind in K.
      destruct ms; simpl; now rewrite K.
    + inversion Hns as [|? ? Hn Hns']; subst.
      specialize (IH ns Hms' Hns').
      destruct ms as [|m' ms], ns as [|n' ns]; simpl in *;
        rewrite (compare_part_numeric _ _ Hm Hn);
        destruct (decimal_value m >? decimal_value n); try reflexivity;
        destruct (decimal_value m <? decimal_value n); try reflexivity.
      * exact IH.
Qed.

End DottedFacts.

(** X7. Versions written as numbers with periods between them (each number
    a run of digits that fits an [int]) compare number by number and not
    character by character: 1.10 is above 1.9, leading zeros do not count,
    and a version that continues another one is above it. *)
Theorem CompareVersions_dotted (R : Runtime) (ms ns : list string) :
  Forall numeric_part ms -> Forall numeric_part ns ->
  CompareVersions (dotted ms) (dotted ns) =
  numeric_compare (map decimal_value ms) (map decimal_value ns).
Proof.
  intros Hms Hns.
  rewrite CompareVersions_parts, !SplitVersionString_dotted by assumption.
  now apply compare_parts_dotted.
Qed.

Lemma CompareVersions_dotted_witness :
  @CompareVersions normalising_runtime "1.10" "1.9" = 1 /\
  @CompareVersions normalising_runtime "1.02" "1.2" = 0 /\
  @CompareVersions normalising_runtime "1.2" "1.2.0" = -1.
Proof.
  assert (N : forall n, n <> "" -> all_digits n = true ->
                        decimal_value n <= INT_MAX -> numeric_part n)
    by (intros n H1 H2 H3; unfold numeric_part; auto).
  split; [|split].
  - apply (CompareVersions_dotted normalising_runtime ["1"; "10"] ["1"; "9"]);
      repeat constructor; apply N; first [discriminate|reflexivity].
  - apply (CompareVersions_dotted normalising_runtime ["1"; "02"] ["1"; "2"]);
      repeat constructor; apply N; first [discriminate|reflexivity].
  - apply (CompareVersions_dotted normalising_runtime ["1"; "2"] ["1"; "2"; "0"]);
      repeat constructor; apply N; first [discriminate|reflexivity].
Defined.

(** ** [ParseGetVersionResponseJSON] and [GetServerVersion] *)

Lemma get_substring_one (s : string) :
  forall (m : nat) (c : ascii),
    String.substring m 1 s = String c "" <-> String.get m s = Some c.
Proof.
  induction s as [|x s IH]; intros m c.
  - destruct m; simpl; split; discriminate.
  - destruct m as [|m]; simpl.
    + replace (String.substring 0 0 s) with "" by (now destruct s).
      split; intros [= ->]; reflexivity.
    + apply IH.
Qed.

Lemma ParseGetVersionResponseJSON_between (json key : string) :
  ParseGetVersionResponseJSON json key = "" \/
  exists start end_,
    find json quote (start + 1) = Some end_ /\
    ParseGetVersionResponseJSON json key = substr json (start + 1) (end_ - start - 1).
Proof.
  unfold ParseGetVersionResponseJSON.
  destruct (find json key 0) as [k|]; [|now left].
  destruct (find json ":" k) as [c|]; [|now left].
  destruct (find json quote c) as [start|]; [|now left].
  destruct (find json quote (start + 1)) as [end_|] eqn:E; [|now left].
  right. exists start, end_. auto.
Qed.

Lemma Parse_no_quote (json key : string) :
  ~ contains (ParseGetVersionResponseJSON json key) quote.
Proof.
  intros [m Hm]. change (String.length quote) with 1%nat in Hm.
  destruct (ParseGetVersionResponseJSON_between json key)
    as [E|(start & end_ & F & E)]; rewrite E in Hm.
  - destruct m; discriminate Hm.
  - unfold substr, quote in Hm. apply get_substring_one in Hm.
    destruct (Nat.lt_ge_cases m (end_ - start - 1)) as [Hlt|Hge].
    + rewrite String.substring_correct1 in Hm by exact Hlt.
      apply get_substring_one in Hm.
      refine (String.index_correct2 _ _ _ _ F (m + (start + 1)) _ _ Hm); lia.
    + rewrite String.substring_correct2 in Hm by exact Hge. discriminate Hm.
Qed.

(** X9. The value that [ParseGetVersionResponseJSON] returns never contains
    a double quote: it stops at the first one after the opening quote. *)
Theorem ParseGetVersionResponseJSON_quote_free (json key : string) :
  ~ contains (ParseGetVersionResponseJSON json key) quote.
Proof. apply Parse_no_quote. Qed.

Lemma index_first_quote (V rest : string) :
  quote_free V = true ->
  String.index 0 quote (V ++ quote ++ rest) = Some (String.length V).
Proof.
  induction V as [|c V IH]; intros H.
  - now destruct rest.
  - simpl in H. apply andb_prop in H as [Hc HV].
    apply negb_true_iff, Ascii.eqb_neq in Hc.
    change ((String c V ++ quote ++ rest)%string)
      with (String c (V ++ quote ++ rest)).
    cbn [String.index String.prefix quote].
    destruct (ascii_dec (ascii_of_nat 34) c) as [E|_]; [now subst|].
    fold quote. now rewrite (IH HV).
Qed.

Lemma Parse_version_body (V rest : string) :
  quote_free V = true ->
  ParseGetVersionResponseJSON (version_body V rest) "oethServerVersion" = V.
Proof.
  intros H.
  assert (F1 : find (version_body V rest) "oethServerVersion" 0 = Some 2%nat)
    by reflexivity.
  assert (F2 : find (version_body V rest) ":" 2 = Some 20%nat) by reflexivity.
  assert (F3 : find (version_body V rest) quote 20 = Some 21%nat)
    by (destruct V; reflexivity).
  assert (F4 : find (version_body V rest) quote (21 + 1)
               = Some (22 + String.length V)%nat).
  { change (find (version_body V rest) quote (21 + 1))
      with (String.index (String.length version_body_head) quote
              (version_body_head ++ (V ++ quote ++ rest))).
    rewrite index_skip, (index_first_quote V rest H). reflexivity. }
  unfold ParseGetVersionResponseJSON. rewrite F1, F2, F3, F4.
  replace (22 + String.length V - 21 - 1)%nat with (String.length V) by lia.
  unfold substr.
  change (String.substring (21 + 1) (String.length V) (version_body V rest))
    with (String.substring (String.length version_body_head) (String.length V)
            (version_body_head ++ (V ++ quote ++ rest))).
  rewrite substring_skip. apply substring_prefix.
Qed.

(** X10. A response body that starts with the [oethServerVersion] key and
    a non-empty value [V] without double quotes gives exactly [V] as the
    server version, whatever follows in the body. *)
Theorem GetServerVersion_version_body (w : World) (V rest : string) :
  HttpGetWinINet w (GetAvailableHost w ++ "/getVersion") = version_body V rest ->
  V <> "" -> quote_free V = true ->
  GetServerVersion w = V.
Proof.
  intros Hb Hne Hq. unfold GetServerVersion. rewrite Hb.
  rewrite (Parse_version_body V rest Hq).
  apply empty_false_iff in Hne. now rewrite Hne.
Qed.

Lemma GetServerVersion_version_body_witness :
  GetServerVersion (probe_world (version_body "3.4.1" ", more")) = "3.4.1".
Proof.
  apply (GetServerVersion_version_body
           (probe_world (version_body "3.4.1" ", more")) "3.4.1" ", more");
    [reflexivity|discriminate|reflexivity].
Defined.

(** X11. [GetServerVersion] returns the empty string, the default "2.1.2",
    or the non-empty value that [ParseGetVersionResponseJSON] finds for
    ["oethServerVersion"], and nothing else; the result never contains a
    double quote. *)
Theorem GetServerVersion_range (w : World) :
  (GetServerVersion w = "" \/
   GetServerVersion w = kDefaultServerVersion \/
   (GetServerVersion w <> "" /\
    GetServerVersion w =
    ParseGetVersionResponseJSON
      (HttpGetWinINet w (GetAvailableHost w ++ "/getVersion")) "oethServerVersion"))
  /\ ~ contains (GetServerVersion w) quote.
Proof.
  unfold GetServerVersion.
  set (json := HttpGetWinINet w (GetAvailableHost w ++ "/getVersion")).
  assert (Q0 : ~ contains "" quote) by (intros [m Hm]; destruct m; discriminate Hm).
  assert (Q1 : ~ contains kDefaultServerVersion quote).
  { apply find_none_not_contains; [discriminate|reflexivity]. }
  destruct (empty json); [split; [now left|exact Q0]|].
  destruct (empty (ParseGetVersionResponseJSON json "oethServerVersion")) eqn:E1;
    simpl.
  - destruct (empty (ParseGetVersionResponseJSON json "error_msg")); simpl;
      [split; [now left|exact Q0]|].
    destruct (find (ParseGetVersionResponseJSON json "error_msg") "404" 0);
      [split; [right; now left|exact Q1]|split; [now left|exact Q0]].
  - split; [|apply Parse_no_quote].
    right; right. split; [now apply empty_false_iff|reflexivity].
Qed.

(** ** [PerformUpdateCheck] *)

Lemma after_catch_report (show_dialog : bool) (ex : Exn) (st : State) :
  settings (after_catch show_dialog ex st) = settings st /\
  log (after_catch show_dialog ex st) = (log st ++ error_report show_dialog ex)%list.
Proof.
  destruct ex, show_dialog; simpl; split;
    first [reflexivity|now rewrite app_nil_r].
Qed.

(** X12. A run of the check changes no setting but [LastCheckTime], and
    that one only to the time of the run: the feed URL, the headers, the
    running version, the enable flag, the stored skip version and the
    interval are as they were, however the run ends. *)
Theorem PerformUpdateCheck_settings_frame (R : Runtime) (this : Checker)
    (w : World) (show_dialog : bool) (st : State) :
  let s' := settings (snd (PerformUpdateCheck this w show_dialog st)) in
  AppcastURL s' = AppcastURL (settings st) /\
  HttpHeadersString s' = HttpHeadersString (settings st) /\
  AppBuildVersion s' = AppBuildVersion (settings st) /\
  CheckForUpdates s' = CheckForUpdates (settings st) /\
  SkipThisVersion s' = SkipThisVersion (settings st) /\
  UpdateCheckInterval s' = UpdateCheckInterval (settings st) /\
  (LastCheckTime s' = LastCheckTime (settings st) \/
   LastCheckTime s' = Some (time w)).
Proof.
  cbv zeta. rewrite PerformUpdateCheck_paths.
  destruct (fetched w (settings st)) as [e|[|first rest]]; simpl.
  - rewrite after_catch_settings. tauto.
  - tauto.
  - destruct (candidate_urls_check w (candidate (settings st) first rest)); simpl.
    + rewrite after_catch_settings. tauto.
    + destruct (up_to_date _ _); [simpl; tauto|].
      destruct (should_skip _ _ _ && negb show_dialog); simpl; tauto.
Qed.

(** X13. A run that a thrown object aborts rethrows that object, leaves
    every setting as it was, and reports through [UI::NotifyUpdateError]
    as its [catch] clause says: a [DownloadException] as
    [Err_AppcastXmlUnavailable] and another [std::exception] as
    [Err_Generic], both with the exception's own message and only when
    [show_dialog] is set; anything else as [Err_Generic] with "Unknown
    exception", and always. *)
Theorem PerformUpdateCheck_aborted (R : Runtime) (this : Checker) (w : World)
    (show_dialog : bool) (st st' : State) (e : Exn) :
  PerformUpdateCheck this w show_dialog st = (Thrown e, st') ->
  settings st' = settings st /\
  log st' = (log st ++ error_report show_dialog e)%list /\
  (fetched w (settings st) = inl e \/
   exists first rest,
     fetched w (settings st) = inr (first :: rest) /\
     candidate_urls_check w (candidate (settings st) first rest) = Some e).
Proof.
  intros H. pose proof (PerformUpdateCheck_thrown _ _ _ _ _ _ _ H) as ->.
  destruct (after_catch_report show_dialog e st) as [Hs Hl].
  split; [exact Hs|]. split; [exact Hl|].
  rewrite PerformUpdateCheck_paths in H.
  destruct (fetched w (settings st)) as [e0|[|first rest]];
    [left; now inversion H|discriminate|].
  right. exists first, rest. split; [reflexivity|].
  cbv zeta in H.
  destruct (candidate_urls_check w (candidate (settings st) first rest));
    [now inversion H|].
  destruct (up_to_date _ _); [discriminate|].
  destruct (should_skip _ _ _ && negb show_dialog); discriminate.
Qed.

Lemma PerformUpdateCheck_aborted_witness :
  settings (add_log (initial (example_settings "1.0" None))
              [NotifyUpdateError Err_AppcastXmlUnavailable "timeout"])
    = settings (initial (example_settings "1.0" None)) /\
  log (add_log (initial (example_settings "1.0" None))
         [NotifyUpdateError Err_AppcastXmlUnavailable "timeout"])
    = (log (initial (example_settings "1.0" None))
         ++ error_report true (DownloadException "timeout"))%list /\
  (@fetched normalising_runtime
     (example_world (inl (DownloadException "timeout")) (inr []) "")
     (settings (initial (example_settings "1.0" None)))
     = inl (DownloadException "timeout") \/
   exists first rest,
     @fetched normalising_runtime
       (example_world (inl (DownloadException "timeout")) (inr []) "")
       (settings (initial (example_settings "1.0" None)))
       = inr (first :: rest) /\
     candidate_urls_check
       (example_world (inl (DownloadException "timeout")) (inr []) "")
       (@candidate normalising_runtime
          (settings (initial (example_settings "1.0" None))) first rest)
       = Some (DownloadException "timeout")).
Proof.
  apply (PerformUpdateCheck_aborted normalising_runtime ManualUpdateChecker
           (example_world (inl (DownloadException "timeout")) (inr []) "")
           true (initial (example_settings "1.0" None))).
  reflexivity.
Defined.

(** X14. With no feed URL configured the run throws the "configuration is
    missing" error at once: no collaborator is consulted, so the outcome is
    the same in every world. *)
Theorem PerformUpdateCheck_no_feed_url (R : Runtime) (this : Checker)
    (w : World) (show_dialog : bool) (st : State) :
  AppcastURL (settings st) = "" ->
  PerformUpdateCheck this w show_dialog st =
  (Thrown (StdException missing_source_message),
   if show_dialog
   then add_log st [NotifyUpdateError Err_Generic missing_source_message]
   else st).
Proof.
  intros H. rewrite PerformUpdateCheck_paths. unfold fetched. now rewrite H.
Qed.

Lemma PerformUpdateCheck_no_feed_url_witness :
  @PerformUpdateCheck normalising_runtime ManualUpdateChecker
    (example_world (inr "<rss/>") (inr [entry_2_0]) "") true
    (initial settings_without_feed) =
  (Thrown (StdException missing_source_message),
   add_log (initial settings_without_feed)
     [NotifyUpdateError Err_Generic missing_source_message]).
Proof.
  apply (PerformUpdateCheck_no_feed_url normalising_runtime ManualUpdateChecker
           (example_world (inr "<rss/>") (inr [entry_2_0]) "") true
           (initial settings_without_feed)).
  reflexivity.
Defined.

Section OfferFacts.

Context {R : Runtime}.

Lemma last_in (A : Type) (l : list A) (d : A) : l <> [] -> In (last l d) l.
Proof.
  induction l as [|x l IH]; [congruence|]. intros _.
  destruct l as [|y l]; [now left|].
  right. apply IH. discriminate.
Qed.

Lemma pick_candidate_in (currentVersion : string) (all : list Appcast)
    (first : Appcast) :
  all <> [] -> In (pick_candidate currentVersion all first) all.
Proof.
  intros H. unfold pick_candidate.
  destruct (List.find (critical_and_newer currentVersion) all) as [x|] eqn:F.
  - now apply find_some in F.
  - now apply last_in.
Qed.

(** The candidate is one of the filtered entries. *)
Lemma candidate_in (s : Settings) (first : Appcast) (rest : list Appcast) :
  In (candidate s first rest) (first :: rest).
Proof.
  unfold candidate.
  apply Permutation_in with (stable_sort version_less (first :: rest)).
  - symmetry. apply stable_sort_perm.
  - apply pick_candidate_in. intros E.
    pose proof (Permutation_length (stable_sort_perm _ version_less (first :: rest))) as L.
    rewrite E in L. discriminate L.
Qed.

Lemma filter_min_server_in (sv : string) (feed : list Appcast) (a : Appcast) :
  In a (filter_min_server sv feed) <->
  In a feed /\ CompareVersions sv (MinServerVersion a) >= 0.
Proof.
  unfold filter_min_server, below_min_server.
  rewrite filter_In, negb_true_iff, Z.ltb_ge. intuition lia.
Qed.

(** A newer entry among the sorted ones makes the candidate newer. *)
Lemma candidate_newer (s : Settings) (first : Appcast) (rest : list Appcast)
    (x : Appcast) :
  In x (first :: rest) ->
  CompareVersions (AppBuildVersion s) (Version x) < 0 ->
  CompareVersions (AppBuildVersion s) (Version (candidate s first rest)) < 0.
Proof.
  intros Hx Hnew. unfold candidate, pick_candidate.
  set (sorted := stable_sort version_less (first :: rest)).
  destruct (List.find (critical_and_newer (AppBuildVersion s)) sorted)
    as [c|] eqn:F.
  - apply find_some in F as [_ F]. apply critical_and_newer_iff in F. apply F.
  - assert (Hin : In x sorted)
      by (apply Permutation_in with (first :: rest);
          [apply stable_sort_perm|exact Hx]).
    destruct (strongly_sorted_last _ _ version_le_trans sorted first
                (proj2 (sorted_by_version (first :: rest))) x Hin) as [<-|Hle];
      [exact Hnew|].
    unfold version_le in Hle.
    pose proof (CompareVersions_antisym (Version x) (Version (last sorted first))).
    pose proof (CompareVersions_antisym (AppBuildVersion s) (Version x)).
    pose proof (CompareVersions_antisym (AppBuildVersion s)
                  (Version (last sorted first))).
    destruct (CompareVersions_trans (Version (last sorted first)) (Version x)
                (AppBuildVersion s)); lia.
Qed.

(** A critical and newer entry among the sorted ones makes the candidate
    critical and newer. *)
Lemma candidate_qualifies (s : Settings) (first : Appcast) (rest : list Appcast)
    (x : Appcast) :
  In x (first :: rest) ->
  qualifies (AppBuildVersion s) x ->
  qualifies (AppBuildVersion s) (candidate s first rest).
Proof.
  intros Hx Q. unfold candidate, pick_candidate.
  set (sorted := stable_sort version_less (first :: rest)).
  destruct (List.find (critical_and_newer (AppBuildVersion s)) sorted)
    as [c|] eqn:F.
  - apply find_some in F as [_ F]. now apply critical_and_newer_iff.
  - assert (Hin : In x sorted)
      by (apply Permutation_in with (first :: rest);
          [apply stable_sort_perm|exact Hx]).
    apply critical_and_newer_iff in Q.
    rewrite (find_none _ _ F x Hin) in Q. discriminate Q.
Qed.

End OfferFacts.

(** X15. An update is announced only if it deserves it: the announced
    entry is an entry of the loaded feed, the server version is not below
    its minimum, it is valid, its version is strictly above the running
    one, its URLs passed the check, and the time of the check has been
    recorded. *)
Theorem update_announced_only_if_newer (R : Runtime) (this : Checker)
    (w : World) (show_dialog : bool) (st st' : State) (r : Result unit)
    (evs : list Event) (a : Appcast) (auto_install : bool) :
  PerformUpdateCheck this w show_dialog st = (r, st') ->
  log st' = (log st ++ evs)%list ->
  In (NotifyUpdateAvailable a auto_install) evs ->
  exists feed,
    feed_loaded w (settings st) feed /\
    In a feed /\
    CompareVersions (GetServerVersion w) (MinServerVersion a) >= 0 /\
    IsValid a = true /\
    CompareVersions (AppBuildVersion (settings st)) (Version a) < 0 /\
    candidate_urls_check w a = None /\
    auto_install = ShouldAutomaticallyInstall w /\
    LastCheckTime (settings st') = Some (time w).
Proof.
  rewrite PerformUpdateCheck_paths. intros H L Hin.
  assert (Err : forall e, log (after_catch show_dialog e st) = (log st ++ evs)%list ->
                          False).
  { intros e E. rewrite (proj2 (after_catch_report show_dialog e st)) in E.
    apply app_inv_head in E. subst evs.
    destruct e, show_dialog; simpl in Hin; intuition discriminate. }
  destruct (fetched w (settings st)) as [e|[|first rest]] eqn:F.
  - inversion H; subst. now apply Err in L.
  - inversion H; subst. simpl in L. apply app_inv_head in L. subst evs.
    simpl in Hin. intuition discriminate.
  - cbv zeta in H.
    destruct (candidate_urls_check w (candidate (settings st) first rest)) eqn:U.
    + inversion H; subst. now apply Err in L.
    + destruct (up_to_date _ _) eqn:O.
      * inversion H; subst. simpl in L. rewrite <- app_assoc in L.
        apply app_inv_head in L. subst evs. simpl in Hin. intuition discriminate.
      * destruct (should_skip _ _ _ && negb show_dialog);
          inversion H; subst; simpl in L.
        -- apply app_inv_head in L. subst evs. simpl in Hin. intuition discriminate.
        -- rewrite <- app_assoc in L. apply app_inv_head in L. subst evs.
           simpl in Hin. destruct Hin as [Hin|[Hin|[]]]; [discriminate|].
           inversion Hin; subst.
           destruct (fetched_feed_loaded _ _ _ F) as (feed & Hf & E).
           pose proof (candidate_in (settings st) first rest) as Hc.
           rewrite E in Hc. apply filter_min_server_in in Hc as [Hc Hm].
           unfold up_to_date in O. apply orb_false_elim in O as [O1 O2].
           apply negb_false_iff in O1.
           exists feed.
           split; [exact Hf|]. split; [exact Hc|]. split; [exact Hm|].
           split; [exact O1|]. split; [|split; [exact U|split; reflexivity]].
           destruct (Z.geb_spec (CompareVersions (AppBuildVersion (settings st))
                                   (Version (candidate (settings st) first rest))) 0);
             [discriminate|lia].
Qed.

Lemma update_announced_only_if_newer_witness :
  exists feed,
    feed_loaded (example_world (inr "<rss/>") (inr [entry_2_0]) "")
      (settings (initial (example_settings "1.0" None))) feed /\
    In entry_2_0 feed /\
    @CompareVersions normalising_runtime
      (GetServerVersion (example_world (inr "<rss/>") (inr [entry_2_0]) ""))
      (MinServerVersion entry_2_0) >= 0 /\
    IsValid entry_2_0 = true /\
    @CompareVersions normalising_runtime
      (AppBuildVersion (settings (initial (example_settings "1.0" None))))
      (Version entry_2_0) < 0 /\
    candidate_urls_check (example_world (inr "<rss/>") (inr [entry_2_0]) "")
      entry_2_0 = None /\
    false = ShouldAutomaticallyInstall
              (example_world (inr "<rss/>") (inr [entry_2_0]) "") /\
    LastCheckTime
      (settings
         {| settings := set_LastCheckTime 1700000000 (example_settings "1.0" None);
            log := [WriteLastCheckTime 1700000000;
                    NotifyUpdateAvailable entry_2_0 false] |})
      = Some (time (example_world (inr "<rss/>") (inr [entry_2_0]) "")).
Proof.
  apply (update_announced_only_if_newer normalising_runtime
           PeriodicUpdateChecker
           (example_world (inr "<rss/>") (inr [entry_2_0]) "") false
           (initial (example_settings "1.0" None))
           {| settings := set_LastCheckTime 1700000000 (example_settings "1.0" None);
              log := [WriteLastCheckTime 1700000000;
                      NotifyUpdateAvailable entry_2_0 false] |}
           (Returned tt)
           [WriteLastCheckTime 1700000000; NotifyUpdateAvailable entry_2_0 false]).
  - vm_compute. reflexivity.
  - reflexivity.
  - right. left. reflexivity.
Defined.

(** X16. When some entry that passed the filter is newer than the running
    version, the candidate is newer too; if it is valid and its URLs pass,
    the run announces it, unless [ShouldSkipUpdate] holds with
    [show_dialog] off, and never reports "no updates". *)
Theorem newer_entry_is_announced (R : Runtime) (this : Checker) (w : World)
    (show_dialog : bool) (st : State) (feed : list Appcast) (x : Appcast) :
  feed_loaded w (settings st) feed ->
  In x (filter_min_server (GetServerVersion w) feed) ->
  CompareVersions (AppBuildVersion (settings st)) (Version x) < 0 ->
  exists first rest,
    filter_min_server (GetServerVersion w) feed = first :: rest /\
    CompareVersions (AppBuildVersion (settings st))
      (Version (candidate (settings st) first rest)) < 0 /\
    (candidate_urls_check w (candidate (settings st) first rest) = None ->
     IsValid (candidate (settings st) first rest) = true ->
     PerformUpdateCheck this w show_dialog st =
     (Returned tt,
      if should_skip this (settings st) (candidate (settings st) first rest)
         && negb show_dialog
      then written w st
      else add_log (written w st)
             [NotifyUpdateAvailable (candidate (settings st) first rest)
                (ShouldAutomaticallyInstall w)])).
Proof.
  intros Hf Hx Hnew.
  destruct (filter_min_server (GetServerVersion w) feed) as [|first rest] eqn:E;
    [contradiction|].
  exists first, rest. split; [reflexivity|].
  pose proof (candidate_newer (settings st) first rest x Hx Hnew) as Hc.
  split; [exact Hc|]. intros U V.
  rewrite PerformUpdateCheck_paths, (feed_loaded_fetched _ _ _ Hf), E.
  cbv zeta. rewrite U. unfold up_to_date. rewrite V. simpl.
  destruct (Z.geb_spec (CompareVersions (AppBuildVersion (settings st))
                          (Version (candidate (settings st) first rest))) 0);
    [lia|].
  now destruct (should_skip _ _ _ && negb show_dialog).
Qed.

Lemma newer_entry_is_announced_witness :
  exists first rest,
    @filter_min_server normalising_runtime
      (GetServerVersion (example_world (inr "<rss/>") (inr example_entries) ""))
      example_entries = first :: rest /\
    @CompareVersions normalising_runtime
      (AppBuildVersion (settings (initial (example_settings "0.5" None))))
      (Version (@candidate normalising_runtime
                  (settings (initial (example_settings "0.5" None))) first rest))
      < 0 /\
    (candidate_urls_check (example_world (inr "<rss/>") (inr example_entries) "")
       (@candidate normalising_runtime
          (settings (initial (example_settings "0.5" None))) first rest) = None ->
     IsValid (@candidate normalising_runtime
                (settings (initial (example_settings "0.5" None))) first rest)
       = true ->
     @PerformUpdateCheck normalising_runtime OneShotUpdateChecker
       (example_world (inr "<rss/>") (inr example_entries) "") false
       (initial (example_settings "0.5" None)) =
     (Returned tt,
      if should_skip OneShotUpdateChecker
           (settings (initial (example_settings "0.5" None)))
           (@candidate normalising_runtime
              (settings (initial (example_settings "0.5" None))) first rest)
         && negb false
      then written (example_world (inr "<rss/>") (inr example_entries) "")
             (initial (example_settings "0.5" None))
      else add_log
             (written (example_world (inr "<rss/>") (inr example_entries) "")
                (initial (example_settings "0.5" None)))
             [NotifyUpdateAvailable
                (@candidate normalising_runtime
                   (settings (initial (example_settings "0.5" None))) first rest)
                (ShouldAutomaticallyInstall
                   (example_world (inr "<rss/>") (inr example_entries) ""))])).
Proof.
  apply (newer_entry_is_announced normalising_runtime OneShotUpdateChecker
           (example_world (inr "<rss/>") (inr example_entries) "") false
           (initial (example_settings "0.5" None)) example_entries entry_3_0).
  - split; [discriminate|]. split; [reflexivity|].
    exists "<rss/>". split; reflexivity.
  - right. right. left. reflexivity.
  - vm_compute. reflexivity.
Defined.

(** X17. A critical update cannot be silenced: when some entry that passed
    the filter is critical and newer than the running version, the
    candidate is critical and newer, and if it is valid and its URLs pass,
    every kind of check announces it, whatever [show_dialog] and the stored
    skip version are. *)
Theorem critical_update_is_announced (R : Runtime) (this : Checker) (w : World)
    (show_dialog : bool) (st : State) (feed : list Appcast) (x : Appcast) :
  feed_loaded w (settings st) feed ->
  In x (filter_min_server (GetServerVersion w) feed) ->
  CriticalUpdate x = true ->
  CompareVersions (AppBuildVersion (settings st)) (Version x) < 0 ->
  exists first rest,
    filter_min_server (GetServerVersion w) feed = first :: rest /\
    CriticalUpdate (candidate (settings st) first rest) = true /\
    CompareVersions (AppBuildVersion (settings st))
      (Version (candidate (settings st) first rest)) < 0 /\
    (candidate_urls_check w (candidate (settings st) first rest) = None ->
     IsValid (candidate (settings st) first rest) = true ->
     PerformUpdateCheck this w show_dialog st =
     (Returned tt,
      add_log (written w st)
        [NotifyUpdateAvailable (candidate (settings st) first rest)
           (ShouldAutomaticallyInstall w)])).
Proof.
  intros Hf Hx Hcrit Hnew.
  destruct (filter_min_server (GetServerVersion w) feed) as [|first rest] eqn:E;
    [contradiction|].
  exists first, rest. split; [reflexivity|].
  destruct (candidate_qualifies (settings st) first rest x Hx (conj Hcrit Hnew))
    as [Qc Qn].
  split; [exact Qc|]. split; [exact Qn|]. intros U V.
  rewrite PerformUpdateCheck_paths, (feed_loaded_fetched _ _ _ Hf), E.
  cbv zeta. rewrite U. unfold up_to_date. rewrite V. simpl.
  destruct (Z.geb_spec (CompareVersions (AppBuildVersion (settings st))
                          (Version (candidate (settings st) first rest))) 0);
    [lia|].
  assert (S : should_skip this (settings st) (candidate (settings st) first rest)
              = false).
  { unfold should_skip. rewrite Qc. now destruct this. }
  now rewrite S.
Qed.

Lemma critical_update_is_announced_witness :
  exists first rest,
    @filter_min_server normalising_runtime
      (GetServerVersion (example_world (inr "<rss/>") (inr example_entries) ""))
      example_entries = first :: rest /\
    CriticalUpdate
      (@candidate normalising_runtime
         (settings (initial (example_settings "0.5" (Some "2.0")))) first rest)
      = true /\
    @CompareVersions normalising_runtime
      (AppBuildVersion (settings (initial (example_settings "0.5" (Some "2.0")))))
      (Version (@candidate normalising_runtime
                  (settings (initial (example_settings "0.5" (Some "2.0"))))
                  first rest))
      < 0 /\
    (candidate_urls_check (example_world (inr "<rss/>") (inr example_entries) "")
       (@candidate normalising_runtime
          (settings (initial (example_settings "0.5" (Some "2.0")))) first rest)
       = None ->
     IsValid (@candidate normalising_runtime
                (settings (initial (example_settings "0.5" (Some "2.0"))))
                first rest) = true ->
     @PerformUpdateCheck normalising_runtime PeriodicUpdateChecker
       (example_world (inr "<rss/>") (inr example_entries) "") false
       (initial (example_settings "0.5" (Some "2.0"))) =
     (Returned tt,
      add_log
        (written (example_world (inr "<rss/>") (inr example_entries) "")
           (initial (example_settings "0.5" (Some "2.0"))))
        [NotifyUpdateAvailable
           (@candidate normalising_runtime
              (settings (initial (example_settings "0.5" (Some "2.0"))))
              first rest)
           (ShouldAutomaticallyInstall
              (example_world (inr "<rss/>") (inr example_entries) ""))])).
Proof.
  apply (critical_update_is_announced normalising_runtime PeriodicUpdateChecker
           (example_world (inr "<rss/>") (inr example_entries) "") false
           (initial (example_settings "0.5" (Some "2.0"))) example_entries
           entry_2_0_critical).
  - split; [discriminate|]. split; [reflexivity|].
    exists "<rss/>". split; reflexivity.
  - right. left. reflexivity.
  - reflexivity.
  - vm_compute. reflexivity.
Defined.



(** X19. A newer server never loses an update: an entry that passes the
    filter for one server version passes it for every server version that
    is not below that one. *)
Theorem filter_min_server_monotone (R : Runtime) (sv sv' : string)
    (all : list Appcast) (a : Appcast) :
  CompareVersions sv' sv >= 0 ->
  In a (filter_min_server sv all) ->
  In a (filter_min_server sv' all).
Proof.
  intros Hs Ha. apply filter_min_server_in in Ha as [Hin Hm].
  apply filter_min_server_in. split; [exact Hin|].
  now destruct (CompareVersions_trans sv' sv (MinServerVersion a)).
Qed.

Lemma filter_min_server_monotone_witness :
  In entry_needs_server
    (@filter_min_server normalising_runtime "3.0" [entry_1_0; entry_needs_server]).
Proof.
  apply (filter_min_server_monotone normalising_runtime "2.1.0" "3.0"
           [entry_1_0; entry_needs_server] entry_needs_server).
  - vm_compute. discriminate.
  - right. left. reflexivity.
Defined.

(** ** [PeriodicUpdateChecker::Run] *)

Section TurnFacts.

Context {R : Runtime}.

Lemma Run_sleepTime_disabled (w : World) (st : State) :
  CheckForUpdates (settings st) = None \/ CheckForUpdates (settings st) = Some false ->
  Run_sleepTime w st = (Returned 3600, st).
Proof.
  intros [H|H]; unfold Run_sleepTime, bind, read; now rewrite H.
Qed.

Lemma Run_sleepTime_due (w : World) (st : State) :
  CheckForUpdates (settings st) = Some true ->
  time w >= lastCheck_of (settings st) + UpdateCheckInterval (settings st) ->
  Run_sleepTime w st =
  match PerformUpdateCheck PeriodicUpdateChecker w false st with
  | (Returned _, st') =>
      (Returned (to_unsigned (UpdateCheckInterval (settings st))), st')
  | (Thrown e, st') => (Thrown e, st')
  end.
Proof.
  intros Hc H. unfold Run_sleepTime, bind, read, lastCheck_of in *.
  rewrite Hc. simpl.
  match goal with |- context [?a >=? ?b] => destruct (Z.geb_spec a b); [|lia] end.
  now destruct (PerformUpdateCheck PeriodicUpdateChecker w false st) as [[[]|e] st'].
Qed.

Lemma Run_sleepTime_early (w : World) (st : State) :
  CheckForUpdates (settings st) = Some true ->
  time w < lastCheck_of (settings st) + UpdateCheckInterval (settings st) ->
  Run_sleepTime w st =
  (Returned (to_unsigned (lastCheck_of (settings st)
                          + UpdateCheckInterval (settings st) - time w)), st).
Proof.
  intros Hc H. unfold Run_sleepTime, bind, read, lastCheck_of in *.
  rewrite Hc. simpl.
  match goal with |- context [?a >=? ?b] => destruct (Z.geb_spec a b); [lia|] end.
  reflexivity.
Qed.

Lemma Run_turn_of_sleepTime (w : World) (st st1 : State) (s : Z) :
  Run_sleepTime w st = (Returned s, st1) ->
  PeriodicUpdateChecker_Run_turn w st =
  (Returned tt, add_log st1 [WaitUntilSignaled (to_unsigned (s * 1000))]).
Proof.
  intros H. unfold PeriodicUpdateChecker_Run_turn, bind. now rewrite H.
Qed.


End TurnFacts.

(** X20. With checking switched off, or never configured, a turn of the
    periodic loop runs no check, touches no setting and waits one hour. *)
Theorem Run_turn_disabled (R : Runtime) (w : World) (st : State) :
  CheckForUpdates (settings st) = None \/ CheckForUpdates (settings st) = Some false ->
  PeriodicUpdateChecker_Run_turn w st =
  (Returned tt, add_log st [WaitUntilSignaled 3600000]).
Proof.
  intros H.
  now rewrite (Run_turn_of_sleepTime w st st 3600 (Run_sleepTime_disabled w st H)).
Qed.

Lemma Run_turn_disabled_witness :
  @PeriodicUpdateChecker_Run_turn normalising_runtime (world_at 1700000000)
    (initial settings_unconfigured) =
  (Returned tt, add_log (initial settings_unconfigured) [WaitUntilSignaled 3600000]).
Proof.
  apply (Run_turn_disabled normalising_runtime (world_at 1700000000)
           (initial settings_unconfigured)).
  left. reflexivity.
Defined.



Section LoopFacts.

Context {R : Runtime}.

(** A check whose candidate passes the URL checks returns and records the
    time. *)
Lemma check_records_time (this : Checker) (w : World) (show_dialog : bool)
    (st : State) (feed : list Appcast) (first : Appcast) (rest : list Appcast) :
  feed_loaded w (settings st) feed ->
  filter_min_server (GetServerVersion w) feed = first :: rest ->
  candidate_urls_check w (candidate (settings st) first rest) = None ->
  exists st',
    PerformUpdateCheck this w show_dialog st = (Returned tt, st') /\
    settings st' = set_LastCheckTime (time w) (settings st).
Proof.
  intros Hf E U.
  rewrite PerformUpdateCheck_paths, (feed_loaded_fetched _ _ _ Hf), E.
  cbv zeta. rewrite U.
  destruct (up_to_date _ _); [eexists; split; reflexivity|].
  destruct (should_skip _ _ _ && negb show_dialog); eexists; split; reflexivity.
Qed.

Lemma check_empty_filter (this : Checker) (w : World) (show_dialog : bool)
    (st : State) (feed : list Appcast) :
  feed_loaded w (settings st) feed ->
  filter_min_server (GetServerVersion w) feed = [] ->
  PerformUpdateCheck this w show_dialog st =
  (Returned tt,
   add_log st [NotifyNoUpdates (ShouldAutomaticallyInstall w) show_dialog]).
Proof.
  intros Hf E.
  now rewrite PerformUpdateCheck_paths, (feed_loaded_fetched _ _ _ Hf), E.
Qed.

End LoopFacts.

(** X22. A check that got as far as recording its time is not repeated
    before the interval is over: the next turn, at any time before the
    recorded time plus the interval, runs no check and sleeps for the
    remainder. *)
Theorem check_not_repeated_within_interval (R : Runtime) (w1 w2 : World)
    (st : State) (feed : list Appcast) (first : Appcast) (rest : list Appcast) :
  CheckForUpdates (settings st) = Some true ->
  time w1 >= lastCheck_of (settings st) + UpdateCheckInterval (settings st) ->
  feed_loaded w1 (settings st) feed ->
  filter_min_server (GetServerVersion w1) feed = first :: rest ->
  candidate_urls_check w1 (candidate (settings st) first rest) = None ->
  time w2 < time w1 + UpdateCheckInterval (settings st) ->
  exists st1,
    PeriodicUpdateChecker_Run_turn w1 st = (Returned tt, st1) /\
    LastCheckTime (settings st1) = Some (time w1) /\
    Run_sleepTime w2 st1 =
    (Returned (to_unsigned (time w1 + UpdateCheckInterval (settings st) - time w2)),
     st1).
Proof.
  intros Hc Hdue Hf E U Hw2.
  destruct (check_records_time PeriodicUpdateChecker w1 false st feed first rest
              Hf E U) as (st' & Hrun & Hs).
  pose proof (Run_sleepTime_due w1 st Hc Hdue) as D. rewrite Hrun in D.
  pose proof (Run_turn_of_sleepTime _ _ _ _ D) as T.
  eexists. split; [exact T|].
  assert (S1 : settings (add_log st' [WaitUntilSignaled
                  (to_unsigned (to_unsigned (UpdateCheckInterval (settings st)) * 1000))])
               = set_LastCheckTime (time w1) (settings st)) by exact Hs.
  split; [now rewrite S1|].
  rewrite Run_sleepTime_early; rewrite S1; unfold lastCheck_of; simpl;
    [reflexivity|exact Hc|exact Hw2].
Qed.

Lemma check_not_repeated_within_interval_witness :
  exists st1,
    @PeriodicUpdateChecker_Run_turn normalising_runtime
      (example_world (inr "<rss/>") (inr [entry_2_0]) "")
      (initial (example_settings "1.0" None)) = (Returned tt, st1) /\
    LastCheckTime (settings st1)
      = Some (time (example_world (inr "<rss/>") (inr [entry_2_0]) "")) /\
    @Run_sleepTime normalising_runtime (world_at 1700001800) st1 =
    (Returned
       (to_unsigned
          (time (example_world (inr "<rss/>") (inr [entry_2_0]) "")
           + UpdateCheckInterval (settings (initial (example_settings "1.0" None)))
           - time (world_at 1700001800))),
     st1).
Proof.
  apply (check_not_repeated_within_interval normalising_runtime
           (example_world (inr "<rss/>") (inr [entry_2_0]) "")
           (world_at 1700001800)
           (initial (example_settings "1.0" None)) [entry_2_0] entry_2_0 []).
  - reflexivity.
  - vm_compute. discriminate.
  - split; [discriminate|]. split; [reflexivity|].
    exists "<rss/>". split; reflexivity.
  - reflexivity.
  - reflexivity.
  - reflexivity.
Defined.

(** X23. A check that found nothing eligible records no time, so it comes
    again at every wake-up: when the filter leaves no entry in two
    consecutive turns and the first check was due, both turns run the check
    and report "no updates", each followed by a wait of the whole
    interval. *)
Theorem check_repeats_after_empty_filter (R : Runtime) (w1 w2 : World)
    (st : State) (feed1 feed2 : list Appcast) :
  CheckForUpdates (settings st) = Some true ->
  time w1 >= lastCheck_of (settings st) + UpdateCheckInterval (settings st) ->
  feed_loaded w1 (settings st) feed1 ->
  filter_min_server (GetServerVersion w1) feed1 = [] ->
  time w2 >= time w1 ->
  feed_loaded w2 (settings st) feed2 ->
  filter_min_server (GetServerVersion w2) feed2 = [] ->
  exists st2,
    Run_turns [w1; w2] st = (Returned tt, st2) /\
    settings st2 = settings st /\
    log st2 =
    (log st ++
     [NotifyNoUpdates (ShouldAutomaticallyInstall w1) false;
      WaitUntilSignaled
        (to_unsigned (to_unsigned (UpdateCheckInterval (settings st)) * 1000));
      NotifyNoUpdates (ShouldAutomaticallyInstall w2) false;
      WaitUntilSignaled
        (to_unsigned (to_unsigned (UpdateCheckInterval (settings st)) * 1000))])%list.
Proof.
  intros Hc Hdue Hf1 E1 Hw2 Hf2 E2.
  pose proof (Run_sleepTime_due w1 st Hc Hdue) as D1.
  rewrite (check_empty_filter PeriodicUpdateChecker w1 false st feed1 Hf1 E1) in D1.
  pose proof (Run_turn_of_sleepTime _ _ _ _ D1) as T1.
  set (st1 := add_log
                (add_log st [NotifyNoUpdates (ShouldAutomaticallyInstall w1) false])
                [WaitUntilSignaled
                   (to_unsigned
                      (to_unsigned (UpdateCheckInterval (settings st)) * 1000))])
    in *.
  assert (D2 : Run_sleepTime w2 st1 =
               (Returned (to_unsigned (UpdateCheckInterval (settings st))),
                add_log st1
                  [NotifyNoUpdates (ShouldAutomaticallyInstall w2) false])).
  { rewrite Run_sleepTime_due; [|exact Hc|simpl; lia].
    now rewrite (check_empty_filter PeriodicUpdateChecker w2 false st1 feed2 Hf2 E2). }
  pose proof (Run_turn_of_sleepTime _ _ _ _ D2) as T2.
  eexists. split.
  - simpl. unfold bind at 1. rewrite T1. unfold bind at 1. rewrite T2. reflexivity.
  - split; [reflexivity|]. simpl. now rewrite <- !app_assoc.
Qed.

Lemma check_repeats_after_empty_filter_witness :
  exists st2,
    @Run_turns normalising_runtime
      [example_world (inr "<rss/>") (inr [entry_needs_server]) "";
       example_world (inr "<rss/>") (inr [entry_needs_server]) ""]
      (initial (example_settings "0.5" None)) = (Returned tt, st2) /\
    settings st2 = settings (initial (example_settings "0.5" None)) /\
    log st2 =
    (log (initial (example_settings "0.5" None)) ++
     [NotifyNoUpdates false false; WaitUntilSignaled 3600000;
      NotifyNoUpdates false false; WaitUntilSignaled 3600000])%list.
Proof.
  apply (check_repeats_after_empty_filter normalising_runtime
           (example_world (inr "<rss/>") (inr [entry_needs_server]) "")
           (example_world (inr "<rss/>") (inr [entry_needs_server]) "")
           (initial (example_settings "0.5" None))
           [entry_needs_server] [entry_needs_server]).
  - reflexivity.
  - vm_compute. discriminate.
  - split; [discriminate|]. split; [reflexivity|].
    exists "<rss/>". split; reflexivity.
  - reflexivity.
  - vm_compute. discriminate.
  - split; [discriminate|]. split; [reflexivity|].
    exists "<rss/>". split; reflexivity.
  - reflexivity.
Defined.

(** X24. An error in a background check ends the periodic loop: the
    exception that [PerformUpdateCheck] rethrows leaves [Run], no wait
    follows and no later turn runs. *)
Theorem Run_turns_stop_on_exception (R : Runtime) (w : World)
    (worlds : list World) (st st' : State) (e : Exn) :
  CheckForUpdates (settings st) = Some true ->
  time w >= lastCheck_of (settings st) + UpdateCheckInterval (settings st) ->
  PerformUpdateCheck PeriodicUpdateChecker w false st = (Thrown e, st') ->
  Run_turns (w :: worlds) st = (Thrown e, st') /\
  settings st' = settings st /\
  log st' = (log st ++ error_report false e)%list.
Proof.
  intros Hc Hdue Hrun.
  pose proof (Run_sleepTime_due w st Hc Hdue) as D. rewrite Hrun in D.
  split.
  - simpl. unfold bind at 1. unfold PeriodicUpdateChecker_Run_turn, bind.
    now rewrite D.
  - pose proof (PerformUpdateCheck_thrown _ _ _ _ _ _ _ Hrun) as ->.
    apply after_catch_report.
Qed.

Lemma Run_turns_stop_on_exception_witness :
  @Run_turns normalising_runtime
    [example_world (inl (DownloadException "timeout")) (inr []) "";
     example_world (inr "<rss/>") (inr [entry_2_0]) ""]
    (initial (example_settings "1.0" None)) =
  (Thrown (DownloadException "timeout"), initial (example_settings "1.0" None)) /\
  settings (initial (example_settings "1.0" None))
    = settings (initial (example_settings "1.0" None)) /\
  log (initial (example_settings "1.0" None)) =
  (log (initial (example_settings "1.0" None))
     ++ error_report false (DownloadException "timeout"))%list.
Proof.
  apply (Run_turns_stop_on_exception normalising_runtime
           (example_world (inl (DownloadException "timeout")) (inr []) "")
           [example_world (inr "<rss/>") (inr [entry_2_0]) ""]
           (initial (example_settings "1.0" None))
           (initial (example_settings "1.0" None))
           (DownloadException "timeout")).
  - reflexivity.
  - vm_compute. discriminate.
  - reflexivity.
Defined.
